(** * fix_imports.py: the import-path rewriter of the Flutter project

    A shallow embedding of [src/fix_imports.py] and the properties of its
    rewriting pass.  Texts are Python [str] values, i.e. sequences of Unicode
    code points; the mapping table is the dict literal of the script. *)

From Stdlib Require Import String Ascii NArith Bool Arith Lia List.
Import ListNotations.
Open Scope string_scope.
Open Scope N_scope.
Open Scope list_scope.

(** ** Texts *)

Definition path := string.

(** A character is a Unicode code point. *)
Definition char := N.
Definition str := list char.

(** The code points of an ASCII literal of the script. *)
Definition lit (s : string) : str := map N_of_ascii (list_ascii_of_string s).

Definition str_eq_dec : forall a b : str, {a = b} + {a <> b} :=
  list_eq_dec N.eq_dec.

(** ** The regular expression: keyword, \s+, a quote, the old path, a quote *)

(** [\s] of a [str] pattern: the characters for which Python's
    [Py_UNICODE_ISSPACE] holds. *)
Definition is_space (c : char) : bool :=
  ((9 <=? c) && (c <=? 13)) || ((28 <=? c) && (c <=? 32))
  || (c =? 133) || (c =? 160) || (c =? 5760)
  || ((8192 <=? c) && (c <=? 8202))
  || (c =? 8232) || (c =? 8233) || (c =? 8239) || (c =? 8287) || (c =? 12288).

(** The character class of the two quote characters, ' (39) and the double
    quote (34). *)
Definition is_quote (c : char) : bool := (c =? 39) || (c =? 34).

(** Matching a literal: [re.escape(old_path)] and the keyword. *)
Fixpoint strip_prefix (p s : str) : option str :=
  match p, s with
  | [], _ => Some s
  | a :: p', b :: s' => if a =? b then strip_prefix p' s' else None
  | _ :: _, [] => None
  end.

(** The greedy [\s*] that follows the first white-space character. *)
Fixpoint skip_spaces (s : str) : str :=
  match s with
  | c :: s' => if is_space c then skip_spaces s' else s
  | [] => []
  end.

(** [match_at kw old s] anchors the pattern (keyword, [\s+], quote class,
    escaped old path, quote class) at the head of [s] and returns what
    follows the match.  [\s+] is greedy and the class after it holds no white
    space, so giving characters back never helps: the match at a position is
    unique. *)
Definition match_at (kw old s : str) : option str :=
  match strip_prefix kw s with
  | Some (c :: s1) =>
      if is_space c then
        match skip_spaces s1 with
        | q :: s2 =>
            if is_quote q then
              match strip_prefix old s2 with
              | Some (q' :: s3) => if is_quote q' then Some s3 else None
              | _ => None
              end
            else None
        | [] => None
        end
      else None
  | _ => None
  end.

(** [re.sub(pattern, replacement, content)]: the leftmost match is replaced,
    the scan resumes behind it; a character at which nothing matches is
    copied.  A match is never empty, so [fuel] above the length of the text is
    never used up. *)
Fixpoint re_sub_fuel (fuel : nat) (kw old replacement s : str) : str :=
  match fuel with
  | O => s
  | S fuel' =>
      match match_at kw old s with
      | Some rest => replacement ++ re_sub_fuel fuel' kw old replacement rest
      | None =>
          match s with
          | [] => []
          | c :: s' => c :: re_sub_fuel fuel' kw old replacement s'
          end
      end
  end.

Definition re_sub (kw old replacement s : str) : str :=
  re_sub_fuel (S (length s)) kw old replacement s.

(** ** The mapping table *)

(** A Python dict keeps its keys in insertion order; storing under a key that
    is present replaces the value and leaves the key where it is. *)
Fixpoint dict_set (d : list (string * string)) (k v : string)
  : list (string * string) :=
  match d with
  | [] => [(k, v)]
  | (k', v') :: d' =>
      if String.eqb k' k then (k', v) :: d' else (k', v') :: dict_set d' k v
  end.

(** A dict display  {k1: v1, k2: v2, ...}  stores its items from left to
    right. *)
Definition dict_display (items : list (string * string))
  : list (string * string) :=
  fold_left (fun d kv => dict_set d (fst kv) (snd kv)) items [].

(** The items of the display, in the order of the source text. *)
Definition import_mappings_items : list (string * string) := [
    ("../core/models/note.dart", "../../../core/models/note.dart");
    ("../../models/note.dart", "../../../core/models/note.dart");
    ("../models/note.dart", "../../core/models/note.dart");
    ("../core/models/page.dart", "../../../core/models/page.dart");
    ("../../models/page.dart", "../../../core/models/page.dart");
    ("../models/page.dart", "../../core/models/page.dart");
    ("../core/models/flash_card.dart", "../../../core/models/flash_card.dart");
    ("../../models/flash_card.dart", "../../../core/models/flash_card.dart");
    ("../models/flash_card.dart", "../../core/models/flash_card.dart");
    ("../core/models/dictionary.dart", "../../../core/models/dictionary.dart");
    ("../../models/dictionary.dart", "../../../core/models/dictionary.dart");
    ("../models/dictionary.dart", "../../core/models/dictionary.dart");
    ("../core/models/processed_text.dart", "../../../core/models/processed_text.dart");
    ("../../models/processed_text.dart", "../../../core/models/processed_text.dart");
    ("../models/processed_text.dart", "../../core/models/processed_text.dart");
    ("../core/models/processing_status.dart", "../../../core/models/processing_status.dart");
    ("../../models/processing_status.dart", "../../../core/models/processing_status.dart");
    ("../models/processing_status.dart", "../../core/models/processing_status.dart");
    ("../core/models/text_unit.dart", "../../../core/models/text_unit.dart");
    ("../../models/text_unit.dart", "../../../core/models/text_unit.dart");
    ("../models/text_unit.dart", "../../core/models/text_unit.dart");
    ("../core/theme/tokens/color_tokens.dart", "../../../core/theme/tokens/color_tokens.dart");
    ("../../core/theme/tokens/color_tokens.dart", "../../../core/theme/tokens/color_tokens.dart");
    ("../theme/tokens/color_tokens.dart", "../../core/theme/tokens/color_tokens.dart");
    ("../core/theme/tokens/typography_tokens.dart", "../../../core/theme/tokens/typography_tokens.dart");
    ("../../core/theme/tokens/typography_tokens.dart", "../../../core/theme/tokens/typography_tokens.dart");
    ("../theme/tokens/typography_tokens.dart", "../../core/theme/tokens/typography_tokens.dart");
    ("../core/theme/tokens/spacing_tokens.dart", "../../../core/theme/tokens/spacing_tokens.dart");
    ("../../core/theme/tokens/spacing_tokens.dart", "../../../core/theme/tokens/spacing_tokens.dart");
    ("../theme/tokens/spacing_tokens.dart", "../../core/theme/tokens/spacing_tokens.dart");
    ("../core/theme/tokens/ui_tokens.dart", "../../../core/theme/tokens/ui_tokens.dart");
    ("../../core/theme/tokens/ui_tokens.dart", "../../../core/theme/tokens/ui_tokens.dart");
    ("../theme/tokens/ui_tokens.dart", "../../core/theme/tokens/ui_tokens.dart");
    ("../../core/services/media/image_service.dart", "../media/image_service.dart");
    ("../../core/services/common/usage_limit_service.dart", "../common/usage_limit_service.dart");
    ("../../core/services/text_processing/llm_text_processing.dart", "../text_processing/llm_text_processing.dart");
    ("../core/services/content/note_service.dart", "../../../core/services/content/note_service.dart");
    ("../../core/services/content/note_service.dart", "../../../core/services/content/note_service.dart");
    ("../services/content/note_service.dart", "../../core/services/content/note_service.dart");
    ("../core/services/content/page_service.dart", "../../../core/services/content/page_service.dart");
    ("../../core/services/content/page_service.dart", "../../../core/services/content/page_service.dart");
    ("../services/content/page_service.dart", "../../core/services/content/page_service.dart");
    ("../core/services/media/image_service.dart", "../../../core/services/media/image_service.dart");
    ("../../core/services/media/image_service.dart", "../../../core/services/media/image_service.dart");
    ("../services/media/image_service.dart", "../../core/services/media/image_service.dart");
    ("../media/image_service.dart", "../../core/services/media/image_service.dart");
    ("../core/services/media/image_cache_service.dart", "../../../core/services/media/image_cache_service.dart");
    ("../../core/services/media/image_cache_service.dart", "../../../core/services/media/image_cache_service.dart");
    ("../services/media/image_cache_service.dart", "../../core/services/media/image_cache_service.dart");
    ("../core/services/tts/tts_service.dart", "../../../core/services/tts/tts_service.dart");
    ("../../core/services/tts/tts_service.dart", "../../../core/services/tts/tts_service.dart");
    ("../services/tts/tts_service.dart", "../../core/services/tts/tts_service.dart");
    ("../core/services/tts/tts_playback_service.dart", "../../../core/services/tts/tts_playback_service.dart");
    ("../../core/services/tts/tts_playback_service.dart", "../../../core/services/tts/tts_playback_service.dart");
    ("../services/tts/tts_playback_service.dart", "../../core/services/tts/tts_playback_service.dart");
    ("../core/services/tts/tts_api_service.dart", "../../../core/services/tts/tts_api_service.dart");
    ("../../core/services/tts/tts_api_service.dart", "../../../core/services/tts/tts_api_service.dart");
    ("../services/tts/tts_api_service.dart", "../../core/services/tts/tts_api_service.dart");
    ("../tts/tts_api_service.dart", "../../core/services/tts/tts_api_service.dart");
    ("../core/services/dictionary/dictionary_service.dart", "../../../core/services/dictionary/dictionary_service.dart");
    ("../../core/services/dictionary/dictionary_service.dart", "../../../core/services/dictionary/dictionary_service.dart");
    ("../services/dictionary/dictionary_service.dart", "../../core/services/dictionary/dictionary_service.dart");
    ("../core/services/dictionary/cc_cedict_service.dart", "../../../core/services/dictionary/cc_cedict_service.dart");
    ("../../core/services/dictionary/cc_cedict_service.dart", "../../../core/services/dictionary/cc_cedict_service.dart");
    ("../services/dictionary/cc_cedict_service.dart", "../../core/services/dictionary/cc_cedict_service.dart");
    ("../core/services/text_processing/llm_text_processing.dart", "../../../core/services/text_processing/llm_text_processing.dart");
    ("../../core/services/text_processing/llm_text_processing.dart", "../../../core/services/text_processing/llm_text_processing.dart");
    ("../services/text_processing/llm_text_processing.dart", "../../core/services/text_processing/llm_text_processing.dart");
    ("../text_processing/llm_text_processing.dart", "../../core/services/text_processing/llm_text_processing.dart");
    ("../core/services/text_processing/ocr_service.dart", "../../../core/services/text_processing/ocr_service.dart");
    ("../../core/services/text_processing/ocr_service.dart", "../../../core/services/text_processing/ocr_service.dart");
    ("../services/text_processing/ocr_service.dart", "../../core/services/text_processing/ocr_service.dart");
    ("../text_processing/ocr_service.dart", "../../core/services/text_processing/ocr_service.dart");
    ("../core/services/common/usage_limit_service.dart", "../../../core/services/common/usage_limit_service.dart");
    ("../../core/services/common/usage_limit_service.dart", "../../../core/services/common/usage_limit_service.dart");
    ("../services/common/usage_limit_service.dart", "../../core/services/common/usage_limit_service.dart");
    ("../common/usage_limit_service.dart", "../../core/services/common/usage_limit_service.dart");
    ("../core/services/cache/note_cache_service.dart", "../../../core/services/cache/note_cache_service.dart");
    ("../../core/services/cache/note_cache_service.dart", "../../../core/services/cache/note_cache_service.dart");
    ("../services/cache/note_cache_service.dart", "../../core/services/cache/note_cache_service.dart");
    ("../cache/note_cache_service.dart", "../../core/services/cache/note_cache_service.dart");
    ("../core/widgets/pika_button.dart", "../../../core/widgets/pika_button.dart");
    ("../../core/widgets/pika_button.dart", "../../../core/widgets/pika_button.dart");
    ("../widgets/pika_button.dart", "../../core/widgets/pika_button.dart");
    ("../core/widgets/tts_button.dart", "../../../core/widgets/tts_button.dart");
    ("../../core/widgets/tts_button.dart", "../../../core/widgets/tts_button.dart");
    ("../widgets/tts_button.dart", "../../core/widgets/tts_button.dart");
    ("../core/widgets/dot_loading_indicator.dart", "../../../core/widgets/dot_loading_indicator.dart");
    ("../../core/widgets/dot_loading_indicator.dart", "../../../core/widgets/dot_loading_indicator.dart");
    ("../widgets/dot_loading_indicator.dart", "../../core/widgets/dot_loading_indicator.dart");
    ("../core/widgets/loading_dialog_experience.dart", "../../../core/widgets/loading_dialog_experience.dart");
    ("../../core/widgets/loading_dialog_experience.dart", "../../../core/widgets/loading_dialog_experience.dart");
    ("../widgets/loading_dialog_experience.dart", "../../core/widgets/loading_dialog_experience.dart");
    ("../core/utils/date_formatter.dart", "../../../core/utils/date_formatter.dart");
    ("../../core/utils/date_formatter.dart", "../../../core/utils/date_formatter.dart");
    ("../utils/date_formatter.dart", "../../core/utils/date_formatter.dart");
    ("../core/utils/context_menu_manager.dart", "../../../core/utils/context_menu_manager.dart");
    ("../../core/utils/context_menu_manager.dart", "../../../core/utils/context_menu_manager.dart");
    ("../utils/context_menu_manager.dart", "../../core/utils/context_menu_manager.dart");
    ("../core/utils/segment_utils.dart", "../../../core/utils/segment_utils.dart");
    ("../../core/utils/segment_utils.dart", "../../../core/utils/segment_utils.dart");
    ("../utils/segment_utils.dart", "../../core/utils/segment_utils.dart");
    ("../core/managers/note_creation_ui_manager.dart", "../../../core/managers/note_creation_ui_manager.dart");
    ("../../core/managers/note_creation_ui_manager.dart", "../../../core/managers/note_creation_ui_manager.dart");
    ("../managers/note_creation_ui_manager.dart", "../../core/managers/note_creation_ui_manager.dart");
    ("../../widgets/flashcard_counter_badge.dart", "../flashcard/flashcard_counter_badge.dart");
    ("../widgets/flashcard_counter_badge.dart", "../flashcard/flashcard_counter_badge.dart");
    ("flashcard_counter_badge.dart", "../flashcard/flashcard_counter_badge.dart");
    ("../../widgets/note_list_item.dart", "../home/note_list_item.dart");
    ("../widgets/note_list_item.dart", "../home/note_list_item.dart");
    ("note_list_item.dart", "../home/note_list_item.dart");
    ("../../../widgets/edit_title_dialog.dart", "../../../core/widgets/edit_title_dialog.dart");
    ("../../widgets/edit_title_dialog.dart", "../../core/widgets/edit_title_dialog.dart");
    ("../widgets/edit_title_dialog.dart", "../../core/widgets/edit_title_dialog.dart");
    ("../../../widgets/delete_note_dialog.dart", "../../../core/widgets/delete_note_dialog.dart");
    ("../../widgets/delete_note_dialog.dart", "../../core/widgets/delete_note_dialog.dart");
    ("../widgets/delete_note_dialog.dart", "../../core/widgets/delete_note_dialog.dart");
    ("../../../widgets/note_action_bottom_sheet.dart", "../view/note_action_bottom_sheet.dart");
    ("../../widgets/note_action_bottom_sheet.dart", "../view/note_action_bottom_sheet.dart");
    ("../widgets/note_action_bottom_sheet.dart", "../view/note_action_bottom_sheet.dart");
    ("../../widgets/note_progress_bar.dart", "../view/note_progress_bar.dart");
    ("../widgets/note_progress_bar.dart", "../view/note_progress_bar.dart");
    ("../../widgets/page_indicator.dart", "../view/page_indicator.dart");
    ("../widgets/page_indicator.dart", "../view/page_indicator.dart");
    ("../../widgets/page_navigation_button.dart", "../view/page_navigation_button.dart");
    ("../widgets/page_navigation_button.dart", "../view/page_navigation_button.dart");
    ("../../widgets/tts_play_all_button.dart", "../tts/tts_play_all_button.dart");
    ("../widgets/tts_play_all_button.dart", "../tts/tts_play_all_button.dart");
    ("../features/flashcard/flashcard_screen.dart", "../flashcard/flashcard_screen.dart");
    ("../../features/flashcard/flashcard_screen.dart", "../flashcard/flashcard_screen.dart");
    ("../features/sample/sample_flashcard_screen.dart", "../sample/sample_flashcard_screen.dart");
    ("../../features/sample/sample_flashcard_screen.dart", "../sample/sample_flashcard_screen.dart");
    ("../../views/screens/full_image_screen.dart", "../../../views/screens/full_image_screen.dart");
    ("../views/screens/full_image_screen.dart", "../../views/screens/full_image_screen.dart");
    ("../features/flashcard/flashcard_view_model.dart", "../flashcard/flashcard_view_model.dart");
    ("../../features/flashcard/flashcard_view_model.dart", "../flashcard/flashcard_view_model.dart");
    ("../../features/flashcard/flashcard_view_model.dart", "../flashcard/flashcard_view_model.dart");
    ("../../../features/flashcard/flashcard_view_model.dart", "../flashcard/flashcard_view_model.dart");
    ("widgets/loading_screen.dart", "views/screens/loading_screen.dart")
  ]%string.

(** [import_mappings], as [import_mappings.items()] enumerates it. *)
Definition import_mappings : list (string * string) :=
  Eval vm_compute in dict_display import_mappings_items.

(** ** The rewriting of one file's text *)

Definition kw_import : str := Eval vm_compute in lit "import".
Definition kw_export : str := Eval vm_compute in lit "export".

(** The body of the loop over the entries: the import pattern, then the export
    pattern.  The replacement is the template  kw 'new_path' ; a template
    without backslash stands for itself. *)
Definition apply_entry (content : str) (entry : string * string) : str :=
  let old_path := lit (fst entry) in
  let new_path := lit (snd entry) in
  let content :=
    re_sub kw_import old_path (lit "import '" ++ new_path ++ lit "'") content in
  re_sub kw_export old_path (lit "export '" ++ new_path ++ lit "'") content.

(** for old_path, new_path in mappings.items(): ... *)
Definition apply_mappings (mappings : list (string * string)) (content : str)
  : str :=
  fold_left apply_entry mappings content.

(** What one run makes of the text of a file. *)
Definition rewrite (content : str) : str :=
  apply_mappings import_mappings content.

(** [re.search(pattern, content) is not None]: the pattern occurs somewhere in
    the text. *)
Fixpoint re_search (kw old s : str) : bool :=
  match match_at kw old s with
  | Some _ => true
  | None =>
      match s with
      | [] => false
      | _ :: s' => re_search kw old s'
      end
  end.

(** No entry of the table has an occurrence, as import or as export. *)
Definition untouched (mappings : list (string * string)) (content : str) : Prop :=
  forall entry, In entry mappings ->
    re_search kw_import (lit (fst entry)) content = false /\
    re_search kw_export (lit (fst entry)) content = false.

(** [needle in haystack] on texts. *)
Fixpoint contains (haystack needle : str) : bool :=
  match strip_prefix needle haystack with
  | Some _ => true
  | None =>
      match haystack with
      | [] => false
      | _ :: h' => contains h' needle
      end
  end.

(** The table read as the sequence of its declared items, each one applied in
    turn: the reading of the data model in which duplicates stay. *)
Definition rewrite_declared (content : str) : str :=
  apply_mappings import_mappings_items content.

(** ** The run over the files *)

(** A line of the console output. *)
Inductive line :=
  | Start (total_files : nat)
  | Modified (file_path : path)
  | Failed (file_path : path) (e : string)
  | Summary (modified_files total_files : nat).

Section Run.

(** The file system: what [glob.glob] finds, and what reading and writing a
    file do.  Reading gives the decoded text or raises [e]; writing gives
    the next file system and may raise. *)
Variable World : Type.
Variable glob_dart : World -> list path.
Variable read_text : World -> path -> str + string.
Variable write_text : World -> path -> str -> World * option string.

Record state := State {
  world : World;
  modified_files : nat;
  printed : list line
}.

Definition print (st : state) (l : line) : state :=
  State (world st) (modified_files st) (printed st ++ [l]).

(** The body of  for file_path in dart_files , with its try and except. *)
Definition process_file (st : state) (file_path : path) : state :=
  match read_text (world st) file_path with
  | inr e => print st (Failed file_path e)
  | inl content =>
      let original_content := content in
      let content := rewrite content in
      if str_eq_dec content original_content then st
      else
        match write_text (world st) file_path content with
        | (w, Some e) =>
            print (State w (modified_files st) (printed st))
                  (Failed file_path e)
        | (w, None) =>
            print (State w (S (modified_files st)) (printed st))
                  (Modified file_path)
        end
  end.

Definition start (w : World) : state :=
  State w 0 [Start (length (glob_dart w))].

Definition finish (total_files : nat) (st : state) : state :=
  print st (Summary (modified_files st) total_files).

Definition fix_imports (w : World) : state :=
  let dart_files := glob_dart w in
  let total_files := length dart_files in
  finish total_files (fold_left process_file dart_files (start w)).



End Run.

Arguments world {World}.
Arguments modified_files {World}.
Arguments printed {World}.
Arguments State {World}.

(** A file system for examples: a file is a text, perhaps write-protected, or
    cannot be read; the disk counts the writes it has taken.  The text of a
    file is the text that reading it gives, decoded and with its line ends
    already as the text mode of [open] returns them. *)
Inductive file :=
  | Text (content : str) (writable : bool)
  | Unreadable (e : string).

Record disk := Disk { files : list (path * file); writes : nat }.

Fixpoint lookup (fs : list (path * file)) (p : path) : option file :=
  match fs with
  | [] => None
  | (p', f) :: fs' => if String.eqb p' p then Some f else lookup fs' p
  end.

Fixpoint store (fs : list (path * file)) (p : path) (f : file)
  : list (path * file) :=
  match fs with
  | [] => [(p, f)]
  | (p', f') :: fs' =>
      if String.eqb p' p then (p', f) :: fs' else (p', f') :: store fs' p f
  end.

Definition disk_glob (d : disk) : list path := map fst (files d).

Definition disk_read (d : disk) (p : path) : str + string :=
  match lookup (files d) p with
  | Some (Text content _) => inl content
  | Some (Unreadable e) => inr e
  | None => inr "No such file or directory"%string
  end.

Definition disk_write (d : disk) (p : path) (content : str)
  : disk * option string :=
  match lookup (files d) p with
  | Some (Text _ false) => (d, Some "Permission denied"%string)
  | _ => (Disk (store (files d) p (Text content true)) (S (writes d)), None)
  end.

(** ** Statements: the shape the patterns match *)

Definition sq : char := 39.
Definition dq : char := 34.
Definition space : char := 32.

Inductive keyword := Import | Export.

Definition kw_text (k : keyword) : str :=
  match k with Import => kw_import | Export => kw_export end.

(** A character of a path: neither white space nor a quote. *)
Definition path_char (c : char) : bool := negb (is_space c) && negb (is_quote c).

Definition path_like (p : str) : bool := forallb path_char p.

(** A text cut into single characters and statements  kw ws q1 p q2 . *)
Inductive token :=
  | Chr (c : char)
  | Stmt (k : keyword) (ws : str) (q1 : char) (p : str) (q2 : char).

Definition stmt_text (k : keyword) (ws : str) (q1 : char) (p : str) (q2 : char)
  : str :=
  kw_text k ++ ws ++ q1 :: p ++ [q2].

Definition well_formed (ws : str) (q1 : char) (p : str) (q2 : char) : Prop :=
  ws <> [] /\ forallb is_space ws = true /\ is_quote q1 = true /\
  path_like p = true /\ is_quote q2 = true.

Definition tok_text (t : token) : str :=
  match t with
  | Chr c => [c]
  | Stmt k ws q1 p q2 => stmt_text k ws q1 p q2
  end.

Definition untok (ts : list token) : str := flat_map tok_text ts.

(** The keyword at the head of a text. *)
Definition kw_at (s : str) : option (keyword * str) :=
  match strip_prefix kw_import s with
  | Some r => Some (Import, r)
  | None =>
      match strip_prefix kw_export s with
      | Some r => Some (Export, r)
      | None => None
      end
  end.

(** A keyword followed by white space begins here. *)
Definition opens (s : str) : bool :=
  match kw_at s with
  | Some (_, c :: _) => is_space c
  | _ => false
  end.

Fixpoint span (f : char -> bool) (s : str) : str * str :=
  match s with
  | c :: s' => if f c then (c :: fst (span f s'), snd (span f s')) else ([], s)
  | [] => ([], [])
  end.

(** The statement at the head of a text, whatever path it quotes. *)
Definition stmt_at (s : str) : option (token * str) :=
  match kw_at s with
  | Some (k, r) =>
      match span is_space r with
      | (w :: ws, q1 :: r1) =>
          if is_quote q1 then
            match span path_char r1 with
            | (p, q2 :: r2) =>
                if is_quote q2 then Some (Stmt k (w :: ws) q1 p q2, r2)
                else None
            | _ => None
            end
          else None
      | _ => None
      end
  | None => None
  end.

(** A cutting is canonical when no statement begins at a single character. *)
Fixpoint canonical (ts : list token) : Prop :=
  match ts with
  | [] => True
  | Chr c :: r => stmt_at (c :: untok r) = None /\ canonical r
  | Stmt k ws q1 p q2 :: r => well_formed ws q1 p q2 /\ canonical r
  end.

(** What one entry does to a token, and what the whole table does. *)
Definition tok_sub (k : keyword) (old new : str) (t : token) : token :=
  match t with
  | Stmt k' ws q1 p q2 =>
      match k, k' with
      | Import, Import | Export, Export =>
          if str_eq_dec p old then Stmt k' [space] sq new sq else t
      | _, _ => t
      end
  | Chr _ => t
  end.

Definition tok_step (t : token) (entry : string * string) : token :=
  tok_sub Export (lit (fst entry)) (lit (snd entry))
    (tok_sub Import (lit (fst entry)) (lit (snd entry)) t).

Definition tok_pass (mappings : list (string * string)) (t : token) : token :=
  fold_left tok_step mappings t.

(** The path a statement quotes after the entries of the table, in order. *)
Definition chase (mappings : list (string * string)) (p : str) : str :=
  fold_left (fun p entry => if str_eq_dec p (lit (fst entry))
                            then lit (snd entry) else p) mappings p.

Definition is_key (mappings : list (string * string)) (p : str) : bool :=
  existsb (fun entry => if str_eq_dec p (lit (fst entry)) then true else false)
          mappings.

(** A table of paths: no quote and no white space in a key or a value. *)
Definition paths_ok (mappings : list (string * string)) : bool :=
  forallb (fun entry => path_like (lit (fst entry)) && path_like (lit (snd entry)))
          mappings.

(** No statement begins inside [a] when [t] follows it. *)
Fixpoint closed (a t : str) : Prop :=
  match a with
  | [] => True
  | c :: a' => opens (c :: a' ++ t) = false /\ closed a' t
  end.

(** The replacement text of an entry, as a statement. *)
Definition replacement (k : keyword) (new : str) : str :=
  stmt_text k [space] sq new sq.


(** A disk with a file to rewrite, a file that cannot be read, a file that
    needs nothing, and a write-protected file to rewrite. *)
Definition sample_disk : disk :=
  Disk [ ("lib/a.dart"%string,
          Text (lit "import " ++ dq :: lit "../models/note.dart" ++ dq :: lit ";") true);
         ("lib/b.dart"%string, Unreadable "Permission denied");
         ("lib/c.dart"%string, Text (lit "import 'package:flutter/material.dart';") true);
         ("lib/d.dart"%string, Text (lit "export '../utils/segment_utils.dart';") false) ]
       0.

(** The entries whose new path is itself a key of the table. *)
Definition retargeted : list (string * string) :=
  filter (fun e => is_key import_mappings (lit (snd e))) import_mappings.

(** The keys of a dict are distinct. *)
Fixpoint distinct (keys : list string) : bool :=
  match keys with
  | [] => true
  | k :: keys' => negb (existsb (String.eqb k) keys') && distinct keys'
  end.

(** * Properties *)

(** ** Characters *)

Lemma is_quote_cases c : is_quote c = true -> c = sq \/ c = dq.
Proof.
  unfold is_quote, sq, dq. rewrite orb_true_iff, !N.eqb_eq. tauto.
Qed.

Lemma quote_not_space c : is_quote c = true -> is_space c = false.
Proof. intros H. destruct (is_quote_cases c H); subst; reflexivity. Qed.

Lemma quote_not_path c : is_quote c = true -> path_char c = false.
Proof. intros H. unfold path_char. rewrite H, andb_false_r. reflexivity. Qed.

Lemma space_not_path c : is_space c = true -> path_char c = false.
Proof. intros H. unfold path_char. rewrite H. reflexivity. Qed.

Lemma path_not_space c : path_char c = true -> is_space c = false.
Proof.
  unfold path_char. rewrite andb_true_iff, !negb_true_iff. tauto.
Qed.

Lemma path_not_quote c : path_char c = true -> is_quote c = false.
Proof.
  unfold path_char. rewrite andb_true_iff, !negb_true_iff. tauto.
Qed.

Lemma kw_text_path k : path_like (kw_text k) = true.
Proof. destruct k; reflexivity. Qed.

Lemma lit_replacement_import new :
  lit "import '" ++ new ++ lit "'" = replacement Import new.
Proof. reflexivity. Qed.

Lemma lit_replacement_export new :
  lit "export '" ++ new ++ lit "'" = replacement Export new.
Proof. reflexivity. Qed.

(** ** Literal prefixes *)

Lemma strip_prefix_app p r : strip_prefix p (p ++ r) = Some r.
Proof.
  induction p as [|a p IH]; simpl; [reflexivity|].
  rewrite N.eqb_refl. exact IH.
Qed.

Lemma strip_prefix_inv p : forall s r, strip_prefix p s = Some r -> s = p ++ r.
Proof.
  induction p as [|a p IH]; simpl; intros s r H.
  - congruence.
  - destruct s as [|b s]; [discriminate|].
    destruct (N.eqb_spec a b); [|discriminate].
    subst. f_equal. now apply IH.
Qed.

Lemma kw_at_text k r : kw_at (kw_text k ++ r) = Some (k, r).
Proof. destruct k; reflexivity. Qed.

Lemma kw_at_inv s k r : kw_at s = Some (k, r) -> s = kw_text k ++ r.
Proof.
  unfold kw_at. intros H.
  destruct (strip_prefix kw_import s) eqn:E1.
  - inversion H; subst. now apply strip_prefix_inv.
  - destruct (strip_prefix kw_export s) eqn:E2; [|discriminate].
    inversion H; subst. now apply strip_prefix_inv.
Qed.

Lemma strip_kw_at k s r : strip_prefix (kw_text k) s = Some r -> kw_at s = Some (k, r).
Proof.
  intros H. apply strip_prefix_inv in H. subst. apply kw_at_text.
Qed.

(** ** Runs of characters *)

Lemma span_inv f : forall s,
  s = fst (span f s) ++ snd (span f s) /\
  forallb f (fst (span f s)) = true /\
  match snd (span f s) with c :: _ => f c = false | [] => True end.
Proof.
  induction s as [|c s IH]; simpl.
  - auto.
  - destruct (f c) eqn:E; simpl.
    + destruct IH as (H1 & H2 & H3). rewrite E. repeat split; auto.
      now rewrite <- H1.
    + auto.
Qed.

Lemma span_app f a : forall b,
  forallb f a = true ->
  match b with c :: _ => f c = false | [] => True end ->
  span f (a ++ b) = (a, b).
Proof.
  induction a as [|c a IH]; simpl; intros b Ha Hb.
  - destruct b as [|c b]; [reflexivity|]. simpl. now rewrite Hb.
  - apply andb_true_iff in Ha. destruct Ha as [Hc Ha].
    rewrite Hc, (IH b Ha Hb). reflexivity.
Qed.

Lemma skip_spaces_span s : skip_spaces s = snd (span is_space s).
Proof.
  induction s as [|c s IH]; simpl; [reflexivity|].
  destruct (is_space c); simpl; auto.
Qed.

(** ** Statements at the head of a text *)

Lemma stmt_text_app k ws q1 p q2 rest :
  stmt_text k ws q1 p q2 ++ rest = kw_text k ++ ws ++ q1 :: p ++ q2 :: rest.
Proof.
  unfold stmt_text. rewrite <- !app_assoc. simpl. rewrite <- app_assoc.
  reflexivity.
Qed.

Lemma stmt_at_text k ws q1 p q2 rest :
  well_formed ws q1 p q2 ->
  stmt_at (stmt_text k ws q1 p q2 ++ rest) = Some (Stmt k ws q1 p q2, rest).
Proof.
  intros (Hne & Hws & Hq1 & Hp & Hq2).
  rewrite stmt_text_app. unfold stmt_at. rewrite kw_at_text.
  rewrite (span_app is_space ws (q1 :: p ++ q2 :: rest) Hws (quote_not_space _ Hq1)).
  destruct ws as [|w ws]; [congruence|].
  rewrite Hq1.
  rewrite (span_app path_char p (q2 :: rest) Hp (quote_not_path _ Hq2)).
  now rewrite Hq2.
Qed.

Lemma stmt_at_inv s t rest :
  stmt_at s = Some (t, rest) ->
  exists k ws q1 p q2,
    t = Stmt k ws q1 p q2 /\ well_formed ws q1 p q2 /\
    s = stmt_text k ws q1 p q2 ++ rest.
Proof.
  unfold stmt_at. intros H.
  destruct (kw_at s) as [[k r]|] eqn:Ek; [|discriminate].
  apply kw_at_inv in Ek.
  destruct (span_inv is_space r) as (Hr & Hws & _).
  destruct (span is_space r) as [ws r0]; simpl in *.
  destruct ws as [|w ws]; [discriminate|].
  destruct r0 as [|q1 r1]; [discriminate|].
  destruct (is_quote q1) eqn:Eq1; [|discriminate].
  destruct (span_inv path_char r1) as (Hr1 & Hp & _).
  destruct (span path_char r1) as [p r2]; simpl in *.
  destruct r2 as [|q2 r2]; [discriminate|].
  destruct (is_quote q2) eqn:Eq2; [|discriminate].
  inversion H; subst t rest.
  exists k, (w :: ws), q1, p, q2. split; [reflexivity|]. split.
  - repeat split; auto. discriminate.
  - rewrite stmt_text_app. subst s. rewrite Hr, Hr1. reflexivity.
Qed.

(** Two statements at the head of one text are the same statement. *)
Lemma stmt_text_unique k ws q1 p q2 rest k' ws' q1' p' q2' rest' :
  well_formed ws q1 p q2 -> well_formed ws' q1' p' q2' ->
  stmt_text k ws q1 p q2 ++ rest = stmt_text k' ws' q1' p' q2' ++ rest' ->
  Stmt k ws q1 p q2 = Stmt k' ws' q1' p' q2' /\ rest = rest'.
Proof.
  intros H H' E.
  pose proof (stmt_at_text k ws q1 p q2 rest H) as A.
  pose proof (stmt_at_text k' ws' q1' p' q2' rest' H') as A'.
  rewrite E in A. rewrite A in A'. inversion A'. auto.
Qed.

(** ** The pattern at the head of a text *)

Lemma match_at_text k ws q1 old q2 rest :
  ws <> [] -> forallb is_space ws = true ->
  is_quote q1 = true -> is_quote q2 = true ->
  match_at (kw_text k) old (stmt_text k ws q1 old q2 ++ rest) = Some rest.
Proof.
  intros Hne Hws Hq1 Hq2.
  rewrite stmt_text_app. unfold match_at. rewrite strip_prefix_app.
  destruct ws as [|w ws]; [congruence|].
  simpl in Hws. apply andb_true_iff in Hws. destruct Hws as [Hw Hws].
  simpl. rewrite Hw, skip_spaces_span.
  rewrite (span_app is_space ws (q1 :: old ++ q2 :: rest) Hws (quote_not_space _ Hq1)).
  simpl. rewrite Hq1, strip_prefix_app. now rewrite Hq2.
Qed.

Lemma match_at_inv kw old s rest :
  match_at kw old s = Some rest ->
  exists ws q1 q2,
    ws <> [] /\ forallb is_space ws = true /\
    is_quote q1 = true /\ is_quote q2 = true /\
    s = kw ++ ws ++ q1 :: old ++ q2 :: rest.
Proof.
  unfold match_at. intros H.
  destruct (strip_prefix kw s) as [[|c s1]|] eqn:E; try discriminate.
  apply strip_prefix_inv in E.
  destruct (is_space c) eqn:Ec; [|discriminate].
  rewrite skip_spaces_span in H.
  destruct (span_inv is_space s1) as (Hs1 & Hws & _).
  destruct (span is_space s1) as [ws r0]; simpl in *.
  destruct r0 as [|q1 s2]; [discriminate|].
  destruct (is_quote q1) eqn:Eq1; [|discriminate].
  destruct (strip_prefix old s2) as [[|q2 s3]|] eqn:E2; try discriminate.
  apply strip_prefix_inv in E2.
  destruct (is_quote q2) eqn:Eq2; [|discriminate].
  inversion H; subst rest.
  exists (c :: ws), q1, q2. repeat split; auto.
  - discriminate.
  - simpl. now rewrite Ec.
  - subst s. rewrite Hs1, E2. reflexivity.
Qed.

Lemma match_at_shorter kw old s rest :
  match_at kw old s = Some rest -> (length rest < length s)%nat.
Proof.
  intros H. apply match_at_inv in H.
  destruct H as (ws & q1 & q2 & _ & _ & _ & _ & ->).
  rewrite !length_app. simpl. rewrite length_app. simpl. lia.
Qed.

(** For a path, a match of the pattern is a statement that quotes it. *)
Lemma match_at_stmt k old s rest :
  path_like old = true ->
  match_at (kw_text k) old s = Some rest ->
  exists ws q1 q2,
    well_formed ws q1 old q2 /\ s = stmt_text k ws q1 old q2 ++ rest.
Proof.
  intros Hold H. apply match_at_inv in H.
  destruct H as (ws & q1 & q2 & Hne & Hws & Hq1 & Hq2 & ->).
  exists ws, q1, q2. split; [repeat split; auto|].
  now rewrite stmt_text_app.
Qed.

Lemma match_at_other k old k' ws q1 p q2 rest :
  path_like old = true -> well_formed ws q1 p q2 ->
  (k <> k' \/ p <> old) ->
  match_at (kw_text k) old (stmt_text k' ws q1 p q2 ++ rest) = None.
Proof.
  intros Hold Hwf Hdiff.
  destruct (match_at (kw_text k) old (stmt_text k' ws q1 p q2 ++ rest)) as [r|] eqn:E;
    [|reflexivity].
  apply (match_at_stmt k old _ r Hold) in E.
  destruct E as (ws' & q1' & q2' & Hwf' & E).
  apply stmt_text_unique in E; auto.
  destruct E as [E _]. inversion E; subst. destruct Hdiff; congruence.
Qed.

Lemma stmt_at_none_match k old s :
  path_like old = true -> stmt_at s = None -> match_at (kw_text k) old s = None.
Proof.
  intros Hold Hs.
  destruct (match_at (kw_text k) old s) as [r|] eqn:E; [|reflexivity].
  apply (match_at_stmt k old s r Hold) in E.
  destruct E as (ws & q1 & q2 & Hwf & ->).
  rewrite stmt_at_text in Hs; [discriminate|assumption].
Qed.

(** ** Where a statement can begin *)

Lemma opens_head c s : opens (c :: s) = true -> c = 105 \/ c = 101.
Proof.
  unfold opens, kw_at, kw_import, kw_export. cbn [strip_prefix].
  destruct (N.eqb_spec 105 c); [auto|].
  destruct (N.eqb_spec 101 c); [auto|]. intros; discriminate.
Qed.

Lemma opens_inv s :
  opens s = true -> exists k c r, s = kw_text k ++ c :: r /\ is_space c = true.
Proof.
  unfold opens. intros H.
  destruct (kw_at s) as [[k [|c r]]|] eqn:E; try discriminate.
  apply kw_at_inv in E. eauto.
Qed.

Lemma opens_text k ws q1 p q2 rest :
  well_formed ws q1 p q2 -> opens (stmt_text k ws q1 p q2 ++ rest) = true.
Proof.
  intros (Hne & Hws & _). rewrite stmt_text_app. unfold opens.
  rewrite kw_at_text. destruct ws as [|w ws]; [congruence|].
  simpl in *. apply andb_true_iff in Hws. tauto.
Qed.

Lemma match_at_opens k old s rest :
  match_at (kw_text k) old s = Some rest -> opens s = true.
Proof.
  intros H. apply match_at_inv in H.
  destruct H as (ws & q1 & q2 & Hne & Hws & _ & _ & ->).
  unfold opens. rewrite kw_at_text. destruct ws as [|w ws]; [congruence|].
  simpl in *. apply andb_true_iff in Hws. tauto.
Qed.

(** A run of path characters up to a quote holds no keyword followed by
    white space. *)
Lemma path_run_align q t c r : forall p kw,
  path_like p = true -> path_like kw = true -> is_quote q = true ->
  p ++ q :: t = kw ++ c :: r -> is_space c = false.
Proof.
  induction p as [|x p IH]; intros kw Hp Hkw Hq E.
  - destruct kw as [|a kw]; simpl in E; inversion E; subst.
    + now apply quote_not_space.
    + simpl in Hkw. apply andb_true_iff in Hkw. destruct Hkw as [Ha _].
      apply path_not_quote in Ha. congruence.
  - simpl in Hp. apply andb_true_iff in Hp. destruct Hp as [Hx Hp].
    destruct kw as [|a kw]; simpl in E; inversion E; subst.
    + now apply path_not_space.
    + simpl in Hkw. apply andb_true_iff in Hkw. destruct Hkw as [_ Hkw].
      eapply IH; eauto.
Qed.

Lemma opens_path_run p q t :
  path_like p = true -> is_quote q = true -> opens (p ++ q :: t) = false.
Proof.
  intros Hp Hq. destruct (opens (p ++ q :: t)) eqn:E; [|reflexivity].
  apply opens_inv in E. destruct E as (k & c & r & E & Hc).
  rewrite (path_run_align q t c r p (kw_text k) Hp (kw_text_path k) Hq E) in Hc.
  discriminate.
Qed.

Lemma closed_split t : forall u a m,
  closed a t -> a = u ++ m -> m <> [] -> opens (m ++ t) = false.
Proof.
  induction u as [|x u IH]; simpl; intros a m Hc E Hm.
  - subst a. destruct m as [|c m]; [congruence|]. simpl in Hc. tauto.
  - subst a. simpl in Hc. destruct Hc as [_ Hc]. eapply IH; eauto.
Qed.

Lemma closed_app a : forall b t,
  closed a (b ++ t) -> closed b t -> closed (a ++ b) t.
Proof.
  induction a as [|c a IH]; simpl; intros b t Ha Hb; [assumption|].
  destruct Ha as [H Ha]. split.
  - now rewrite <- app_assoc.
  - now apply IH.
Qed.

Lemma closed_no_head a t :
  Forall (fun c => c <> 105 /\ c <> 101) a -> closed a t.
Proof.
  induction 1 as [|c a [H1 H2] _ IH]; simpl; [exact I|]. split; [|exact IH].
  destruct (opens _) eqn:E; [|reflexivity].
  apply opens_head in E. tauto.
Qed.

Lemma closed_path_run q t : forall p,
  path_like p = true -> is_quote q = true -> closed (p ++ [q]) t.
Proof.
  induction p as [|x p IH]; simpl; intros Hp Hq.
  - split; [|exact I]. apply (opens_path_run [] q t); auto.
  - apply andb_true_iff in Hp. destruct Hp as [Hx Hp]. split; [|auto].
    rewrite <- app_assoc. apply (opens_path_run (x :: p) q t); simpl; auto.
    now rewrite Hx.
Qed.

Lemma space_no_head c : is_space c = true -> c <> 105 /\ c <> 101.
Proof. intros H. split; intros ->; discriminate. Qed.

Lemma quote_no_head c : is_quote c = true -> c <> 105 /\ c <> 101.
Proof. intros H. split; intros ->; discriminate. Qed.

(** The text of a statement is its first character and a closed rest. *)
Lemma stmt_text_interior k ws q1 p q2 t :
  well_formed ws q1 p q2 ->
  exists c a, stmt_text k ws q1 p q2 = c :: a /\ closed a t.
Proof.
  intros (Hne & Hws & Hq1 & Hp & Hq2).
  assert (Hmid : closed (ws ++ [q1]) ((p ++ [q2]) ++ t)).
  { apply closed_no_head. apply Forall_app. split.
    - apply Forall_forall. intros c Hc. apply space_no_head.
      rewrite forallb_forall in Hws. auto.
    - constructor; [now apply quote_no_head|constructor]. }
  pose proof (closed_path_run q2 t p Hp Hq2) as Hend.
  pose proof (closed_app _ _ _ Hmid Hend) as Hrest.
  unfold stmt_text.
  replace (ws ++ q1 :: p ++ [q2]) with ((ws ++ [q1]) ++ p ++ [q2])
    by (rewrite <- app_assoc; reflexivity).
  destruct k; simpl.
  - exists 105, ([109; 112; 111; 114; 116] ++ (ws ++ [q1]) ++ p ++ [q2]).
    split; [reflexivity|]. apply closed_app; [|exact Hrest].
    apply closed_no_head. repeat constructor; discriminate.
  - exists 101, ([120; 112; 111; 114; 116] ++ (ws ++ [q1]) ++ p ++ [q2]).
    split; [reflexivity|]. apply closed_app; [|exact Hrest].
    apply closed_no_head. repeat constructor; discriminate.
Qed.

(** A statement that ends inside [u ++ x], where a statement begins at [x],
    ends inside [u]. *)
Lemma stmt_at_window u x t rest :
  u <> [] -> opens x = true ->
  stmt_at (u ++ x) = Some (t, rest) ->
  exists rest', stmt_at u = Some (t, rest') /\ rest = rest' ++ x.
Proof.
  intros Hu Hx H. apply stmt_at_inv in H.
  destruct H as (k & ws & q1 & p & q2 & -> & Hwf & E).
  apply app_eq_app in E. destruct E as (l & [[E1 E2]|[E1 E2]]).
  - exists l. split; [|assumption]. subst u. now apply stmt_at_text.
  - destruct l as [|y l].
    + exists []. rewrite app_nil_r in E1. simpl in E2. subst x. split.
      * rewrite <- E1, <- (app_nil_r (stmt_text k ws q1 p q2)).
        now apply stmt_at_text.
      * reflexivity.
    + (* the statement would run into x *)
      exfalso.
      destruct (stmt_text_interior k ws q1 p q2 rest Hwf) as (c & a & Ea & Hc).
      rewrite Ea in E1. destruct u as [|c' u]; [congruence|].
      inversion E1; subst c' a.
      subst x.
      rewrite (closed_split rest u _ (y :: l) Hc eq_refl) in Hx
        by discriminate.
      discriminate.
Qed.

(** ** The substitution *)

Lemma re_sub_fuel_enough kw old r : forall n m s,
  (length s < n)%nat -> (length s < m)%nat ->
  re_sub_fuel n kw old r s = re_sub_fuel m kw old r s.
Proof.
  induction n as [|n IH]; intros m s Hn Hm; [lia|].
  destruct m as [|m]; [lia|]. simpl.
  destruct (match_at kw old s) as [rest|] eqn:E.
  - apply match_at_shorter in E. f_equal. apply IH; lia.
  - destruct s as [|c s]; [reflexivity|]. simpl in *. f_equal. apply IH; lia.
Qed.

Lemma re_sub_nil kw old r : re_sub kw old r [] = [].
Proof.
  unfold re_sub. simpl. destruct (match_at kw old []) eqn:E; [|reflexivity].
  apply match_at_shorter in E. simpl in E. lia.
Qed.

Lemma re_sub_match kw old r s rest :
  match_at kw old s = Some rest ->
  re_sub kw old r s = r ++ re_sub kw old r rest.
Proof.
  intros E. unfold re_sub at 1. cbn [re_sub_fuel]. rewrite E. f_equal.
  apply match_at_shorter in E. unfold re_sub. apply re_sub_fuel_enough; lia.
Qed.

Lemma re_sub_miss kw old r c s :
  match_at kw old (c :: s) = None ->
  re_sub kw old r (c :: s) = c :: re_sub kw old r s.
Proof.
  intros E. unfold re_sub at 1. cbn [re_sub_fuel]. rewrite E. reflexivity.
Qed.

Lemma re_sub_closed k old r t : forall a,
  closed a t ->
  re_sub (kw_text k) old r (a ++ t) = a ++ re_sub (kw_text k) old r t.
Proof.
  induction a as [|c a IH]; simpl; intros Hc; [reflexivity|].
  destruct Hc as [Ho Hc]. rewrite re_sub_miss, IH; auto.
  destruct (match_at _ _ _) eqn:E; [|reflexivity].
  apply match_at_opens in E. congruence.
Qed.

(** A text without an occurrence is left as it is. *)
Lemma re_sub_no_match kw old r : forall s,
  re_search kw old s = false -> re_sub kw old r s = s.
Proof.
  induction s as [|c s IH]; intros H.
  - apply re_sub_nil.
  - simpl in H. destruct (match_at kw old (c :: s)) eqn:E; [discriminate|].
    rewrite re_sub_miss, IH; auto.
Qed.

(** ** Cuttings *)

Lemma untok_app a b : untok (a ++ b) = untok a ++ untok b.
Proof. apply flat_map_app. Qed.

Lemma canonical_exists_len : forall n s,
  (length s < n)%nat -> exists ts, canonical ts /\ untok ts = s.
Proof.
  induction n as [|n IH]; intros s Hn; [lia|].
  destruct (stmt_at s) as [[t rest]|] eqn:E.
  - destruct (stmt_at_inv _ _ _ E) as (k & ws & q1 & p & q2 & -> & Hwf & ->).
    destruct (IH rest) as (ts & Hc & Hu).
    { rewrite stmt_text_app, !length_app in Hn. simpl in Hn.
      rewrite length_app in Hn. simpl in Hn. lia. }
    exists (Stmt k ws q1 p q2 :: ts). split; [split; assumption|].
    simpl. now rewrite Hu.
  - destruct s as [|c s].
    + exists []. split; [exact I|reflexivity].
    + destruct (IH s) as (ts & Hc & Hu); [simpl in Hn; lia|].
      exists (Chr c :: ts). simpl. rewrite Hu. auto.
Qed.

(** Every text has a canonical cutting. *)
Lemma canonical_exists s : exists ts, canonical ts /\ untok ts = s.
Proof. apply (canonical_exists_len (S (length s))). lia. Qed.

Lemma canonical_app a b : canonical a -> canonical b ->
  match b with Chr _ :: _ => False | _ => True end ->
  canonical (a ++ b).
Proof.
  intros Ha Hb Hhead. induction a as [|t a IH]; simpl; [assumption|].
  destruct t as [c|k ws q1 p q2]; simpl in Ha; destruct Ha as [H1 H2].
  - split; [|auto]. rewrite untok_app.
    destruct b as [|[c'|k ws q1 p q2] b]; [now rewrite app_nil_r|contradiction|].
    destruct (stmt_at (c :: untok a ++ untok (Stmt k ws q1 p q2 :: b))) as [[t r]|] eqn:E;
      [|reflexivity].
    apply (stmt_at_window (c :: untok a)) in E.
    + destruct E as (r' & E & _). congruence.
    + discriminate.
    + simpl. apply opens_text. simpl in Hb. tauto.
  - split; auto.
Qed.

(** ** The substitution on a cutting *)

Lemma stmt_at_mono u y t r :
  stmt_at u = Some (t, r) -> stmt_at (u ++ y) = Some (t, r ++ y).
Proof.
  intros H. apply stmt_at_inv in H.
  destruct H as (k & ws & q1 & p & q2 & -> & Hwf & ->).
  rewrite <- app_assoc. now apply stmt_at_text.
Qed.

Lemma tok_sub_chr k old new c : tok_sub k old new (Chr c) = Chr c.
Proof. reflexivity. Qed.

Lemma tok_sub_stmt k old new k' ws q1 p q2 :
  path_like new = true -> well_formed ws q1 p q2 ->
  exists ws' q1' p' q2',
    tok_sub k old new (Stmt k' ws q1 p q2) = Stmt k' ws' q1' p' q2' /\
    well_formed ws' q1' p' q2'.
Proof.
  intros Hnew Hwf.
  assert (Hn : well_formed [space] sq new sq).
  { repeat split; auto. discriminate. }
  unfold tok_sub. destruct k, k'; try destruct (str_eq_dec p old); eauto 8.
Qed.

(** Rewriting the statements behind [u] opens no statement inside [u]. *)
Lemma stmt_at_sub_none k old new : forall r u,
  path_like new = true -> canonical r -> u <> [] ->
  stmt_at (u ++ untok r) = None ->
  stmt_at (u ++ untok (map (tok_sub k old new) r)) = None.
Proof.
  induction r as [|t r IH]; intros u Hnew Hc Hu H; [assumption|].
  destruct t as [c|k' ws q1 p q2]; simpl in Hc; destruct Hc as [H1 H2].
  - simpl in *. change (c :: ?x) with ([c] ++ x) in *.
    rewrite app_assoc in *. apply IH; auto. now destruct u.
  - destruct (tok_sub_stmt k old new k' ws q1 p q2 Hnew H1)
      as (ws' & q1' & p' & q2' & E & Hwf).
    cbn [map untok flat_map]. rewrite E. cbn [tok_text].
    match goal with |- ?x = None => destruct x as [[t rest]|] eqn:Es end;
      [|reflexivity].
    apply stmt_at_window in Es; auto.
    + destruct Es as (rest' & Es & _).
      apply (stmt_at_mono u (untok (Stmt k' ws q1 p q2 :: r))) in Es.
      congruence.
    + now apply opens_text.
Qed.

Lemma canonical_sub k old new : forall ts,
  path_like new = true -> canonical ts ->
  canonical (map (tok_sub k old new) ts).
Proof.
  induction ts as [|t ts IH]; intros Hnew Hc; [exact I|].
  destruct t as [c|k' ws q1 p q2]; simpl in Hc; destruct Hc as [H1 H2].
  - cbn [map tok_sub canonical]. split; [|auto].
    apply (stmt_at_sub_none k old new ts [c]); auto. discriminate.
  - destruct (tok_sub_stmt k old new k' ws q1 p q2 Hnew H1)
      as (ws' & q1' & p' & q2' & E & Hwf).
    cbn [map]. rewrite E. split; auto.
Qed.

(** One substitution rewrites the statements of the cutting that quote the old
    path under the keyword, and nothing else. *)
Lemma re_sub_untok k old new : forall ts,
  path_like old = true -> canonical ts ->
  re_sub (kw_text k) old (replacement k new) (untok ts)
  = untok (map (tok_sub k old new) ts).
Proof.
  induction ts as [|t ts IH]; intros Hold Hc.
  - apply re_sub_nil.
  - destruct t as [c|k' ws q1 p q2]; simpl in Hc; destruct Hc as [H1 H2].
    + cbn [map untok flat_map tok_sub tok_text app].
      rewrite re_sub_miss by (now apply stmt_at_none_match).
      f_equal. now apply IH.
    + cbn [map untok flat_map tok_text].
      fold (untok ts). fold (untok (map (tok_sub k old new) ts)).
      assert (Hsame : {k = k' /\ p = old} + {k <> k' \/ p <> old}).
      { destruct (str_eq_dec p old); [|auto].
        destruct k, k'; auto; right; left; discriminate. }
      destruct Hsame as [[-> ->]|Hd].
      * destruct H1 as (Hne & Hws & Hq1 & _ & Hq2).
        rewrite (re_sub_match _ _ _ _ (untok ts))
          by (now apply match_at_text).
        rewrite IH by assumption. f_equal.
        unfold tok_sub.
        destruct k'; destruct (str_eq_dec old old); try reflexivity; congruence.
      * destruct (stmt_text_interior k' ws q1 p q2 (untok ts) H1)
          as (c & a & Ea & Hcl).
        pose proof (match_at_other k old k' ws q1 p q2 (untok ts) Hold H1 Hd) as Hm.
        rewrite Ea in *. cbn [app] in *.
        rewrite re_sub_miss by assumption.
        rewrite re_sub_closed by assumption. rewrite IH by assumption.
        replace (tok_sub k old new (Stmt k' ws q1 p q2)) with (Stmt k' ws q1 p q2).
        { cbn [tok_text]. rewrite Ea. reflexivity. }
        unfold tok_sub. destruct k, k'; try reflexivity;
          destruct (str_eq_dec p old); try reflexivity;
          destruct Hd; congruence.
Qed.

(** ** The entries on a cutting *)

Lemma tok_step_stmt k ws q1 p q2 e :
  tok_step (Stmt k ws q1 p q2) e =
  if str_eq_dec p (lit (fst e)) then Stmt k [space] sq (lit (snd e)) sq
  else Stmt k ws q1 p q2.
Proof.
  unfold tok_step, tok_sub.
  destruct k; destruct (str_eq_dec p (lit (fst e))); reflexivity.
Qed.

Lemma tok_pass_chr m c : tok_pass m (Chr c) = Chr c.
Proof. induction m as [|e m IH]; [reflexivity|exact IH]. Qed.

Lemma tok_pass_normal k : forall m p,
  tok_pass m (Stmt k [space] sq p sq) = Stmt k [space] sq (chase m p) sq.
Proof.
  induction m as [|e m IH]; intros p; [reflexivity|].
  unfold tok_pass, chase. cbn [fold_left]. fold (tok_pass m) (chase m).
  rewrite tok_step_stmt. destruct (str_eq_dec p (lit (fst e))); apply IH.
Qed.

Lemma tok_pass_stmt k ws q1 q2 : forall m p,
  tok_pass m (Stmt k ws q1 p q2) =
  if is_key m p then Stmt k [space] sq (chase m p) sq else Stmt k ws q1 p q2.
Proof.
  induction m as [|e m IH]; intros p; [reflexivity|].
  unfold tok_pass, chase, is_key. cbn [fold_left existsb].
  fold (tok_pass m) (chase m) (is_key m).
  rewrite tok_step_stmt. destruct (str_eq_dec p (lit (fst e))).
  - apply tok_pass_normal.
  - apply IH.
Qed.

Lemma chase_not_key : forall m p, is_key m p = false -> chase m p = p.
Proof.
  induction m as [|e m IH]; intros p H; [reflexivity|].
  unfold is_key in H. cbn [existsb] in H. fold (is_key m) in H.
  unfold chase. cbn [fold_left]. fold (chase m).
  destruct (str_eq_dec p (lit (fst e))); [discriminate|]. now apply IH.
Qed.

Lemma chase_app m1 m2 p : chase (m1 ++ m2) p = chase m2 (chase m1 p).
Proof. apply fold_left_app. Qed.

Lemma is_key_In m p :
  is_key m p = true -> exists e, In e m /\ p = lit (fst e).
Proof.
  unfold is_key. rewrite existsb_exists. intros (e & He & H).
  exists e. split; [assumption|]. now destruct (str_eq_dec p (lit (fst e))).
Qed.

Lemma apply_entry_untok e ts :
  path_like (lit (fst e)) = true -> path_like (lit (snd e)) = true ->
  canonical ts ->
  apply_entry (untok ts) e = untok (map (fun t => tok_step t e) ts) /\
  canonical (map (fun t => tok_step t e) ts).
Proof.
  intros Hold Hnew Hc. unfold apply_entry. cbv zeta.
  rewrite lit_replacement_import, lit_replacement_export.
  change kw_import with (kw_text Import). change kw_export with (kw_text Export).
  rewrite re_sub_untok by assumption.
  pose proof (canonical_sub Import (lit (fst e)) (lit (snd e)) ts Hnew Hc) as Hc1.
  rewrite re_sub_untok by assumption.
  pose proof (canonical_sub Export (lit (fst e)) (lit (snd e)) _ Hnew Hc1) as Hc2.
  rewrite map_map in *. auto.
Qed.

Lemma apply_mappings_untok : forall m ts,
  paths_ok m = true -> canonical ts ->
  apply_mappings m (untok ts) = untok (map (tok_pass m) ts) /\
  canonical (map (tok_pass m) ts).
Proof.
  induction m as [|e m IH]; intros ts Hm Hc.
  - simpl. rewrite map_id. auto.
  - unfold paths_ok in Hm. cbn [forallb] in Hm. fold (paths_ok m) in Hm.
    apply andb_true_iff in Hm. destruct Hm as [He Hm].
    apply andb_true_iff in He. destruct He as [Hold Hnew].
    destruct (apply_entry_untok e ts Hold Hnew Hc) as [E Hc'].
    unfold apply_mappings. cbn [fold_left]. fold (apply_mappings m).
    rewrite E. destruct (IH _ Hm Hc') as [E' Hc''].
    rewrite map_map in *. auto.
Qed.

(** ** Statements in context *)

(** A statement between any two texts is cut off from them: the run rewrites
    the three parts side by side. *)
Lemma apply_mappings_statement m k ws q1 p q2 pre post :
  paths_ok m = true -> well_formed ws q1 p q2 ->
  apply_mappings m (pre ++ stmt_text k ws q1 p q2 ++ post)
  = apply_mappings m pre ++ tok_text (tok_pass m (Stmt k ws q1 p q2))
    ++ apply_mappings m post.
Proof.
  intros Hm Hwf.
  destruct (canonical_exists pre) as (a & Ha & <-).
  destruct (canonical_exists post) as (b & Hb & <-).
  assert (Hc : canonical (a ++ Stmt k ws q1 p q2 :: b)).
  { apply canonical_app; simpl; auto. }
  destruct (apply_mappings_untok m _ Hm Hc) as [E _].
  rewrite untok_app in E. cbn [untok flat_map tok_text] in E.
  fold (untok b) in E. rewrite E.
  rewrite map_app, untok_app. cbn [map untok flat_map]. 
  destruct (apply_mappings_untok m _ Hm Ha) as [-> _].
  destruct (apply_mappings_untok m _ Hm Hb) as [-> _].
  reflexivity.
Qed.


(** ** The table of the script *)

(** The dict is the display evaluated: 139 items declared, 135 keys kept. *)
Lemma import_mappings_display :
  import_mappings = dict_display import_mappings_items /\
  length import_mappings_items = 139%nat /\
  length import_mappings = 135%nat.
Proof. repeat split; vm_compute; reflexivity. Qed.

Lemma import_mappings_paths_ok : paths_ok import_mappings = true.
Proof. vm_compute. reflexivity. Qed.

(** Within one run no entry rewrites what another entry has produced: a key is
    taken to the value stored with it. *)
Lemma import_mappings_direct :
  forallb (fun e => if str_eq_dec (chase import_mappings (lit (fst e))) (lit (snd e))
                    then true else false) import_mappings = true.
Proof. vm_compute. reflexivity. Qed.

(** What a second run makes of a value is no key. *)
Lemma import_mappings_settle :
  forallb (fun e => negb (is_key import_mappings
                            (chase import_mappings (lit (snd e)))))
          import_mappings = true.
Proof. vm_compute. reflexivity. Qed.

Lemma chase_import_mappings e :
  In e import_mappings -> chase import_mappings (lit (fst e)) = lit (snd e).
Proof.
  intros He. pose proof import_mappings_direct as H.
  rewrite forallb_forall in H. specialize (H e He).
  now destruct (str_eq_dec _ _).
Qed.

Lemma untouched_dec m s :
  forallb (fun e => negb (re_search kw_import (lit (fst e)) s)
                    && negb (re_search kw_export (lit (fst e)) s)) m = true ->
  untouched m s.
Proof.
  rewrite forallb_forall. intros H e He. specialize (H e He).
  rewrite andb_true_iff, !negb_true_iff in H. exact H.
Qed.

Lemma apply_mappings_untouched : forall m s, untouched m s -> apply_mappings m s = s.
Proof.
  induction m as [|e m IH]; intros s H; [reflexivity|].
  unfold apply_mappings. cbn [fold_left]. fold (apply_mappings m).
  assert (E : apply_entry s e = s).
  { destruct (H e (or_introl eq_refl)) as [H1 H2].
    unfold apply_entry. cbv zeta.
    rewrite (re_sub_no_match kw_import _ _ s H1).
    now rewrite (re_sub_no_match kw_export _ _ s H2). }
  rewrite E. apply IH. intros e' He'. apply H. now right.
Qed.

(** ** The run *)

Section RunFacts.

Variable World : Type.
Variable glob_dart : World -> list path.
Variable read_text : World -> path -> str + string.
Variable write_text : World -> path -> str -> World * option string.







(** C5.  A file in whose text no pattern of the table occurs keeps its text:
    the run leaves the state as it was, so nothing is written (the file
    system is the same), nothing is counted and nothing is printed. *)
Theorem unmatched_file_is_left_alone st f content :
  read_text (world st) f = inl content ->
  untouched import_mappings content ->
  rewrite content = content /\
  process_file World read_text write_text st f = st.
Proof.
  intros Hr Hu.
  assert (E : rewrite content = content) by now apply apply_mappings_untouched.
  split; [exact E|]. unfold process_file. rewrite Hr.
  destruct (str_eq_dec (rewrite content) content); [reflexivity|contradiction].
Qed.


End RunFacts.

(** ** Keys of a dict *)

Lemma lit_inj a b : lit a = lit b -> a = b.
Proof.
  unfold lit. intros H.
  assert (E : list_ascii_of_string a = list_ascii_of_string b).
  { revert H. generalize (list_ascii_of_string a), (list_ascii_of_string b).
    induction l as [|x l IH]; intros [|y l'] H; simpl in H; try discriminate;
      [reflexivity|].
    inversion H as [[Hx Hl]]. f_equal; [|now apply IH].
    rewrite <- (ascii_N_embedding x), <- (ascii_N_embedding y). now rewrite Hx. }
  rewrite <- (string_of_list_ascii_of_string a),
          <- (string_of_list_ascii_of_string b).
  now rewrite E.
Qed.

Lemma is_key_false m p : ~ In p (map fst m) -> is_key m (lit p) = false.
Proof.
  intros H. destruct (is_key m (lit p)) eqn:E; [|reflexivity].
  apply is_key_In in E. destruct E as (e & He & E).
  apply lit_inj in E. subst p. exfalso. apply H. now apply in_map.
Qed.

Lemma chase_entry m1 old new m2 :
  NoDup (map fst (m1 ++ (old, new) :: m2)) ->
  chase (m1 ++ (old, new) :: m2) (lit old) = chase m2 (lit new) /\
  is_key (m1 ++ (old, new) :: m2) (lit old) = true.
Proof.
  intros Hnd. rewrite map_app in Hnd. cbn [map fst] in Hnd.
  apply NoDup_remove_2 in Hnd. rewrite in_app_iff in Hnd.
  split.
  - rewrite chase_app.
    rewrite (chase_not_key m1 (lit old)) by (apply is_key_false; tauto).
    unfold chase. cbn [fold_left fst snd].
    now destruct (str_eq_dec (lit old) (lit old)).
  - unfold is_key. rewrite existsb_app. cbn [existsb fst].
    destruct (str_eq_dec (lit old) (lit old)); [|congruence].
    now rewrite orb_true_r.
Qed.

Lemma paths_ok_In m e :
  paths_ok m = true -> In e m ->
  path_like (lit (fst e)) = true /\ path_like (lit (snd e)) = true.
Proof.
  unfold paths_ok. rewrite forallb_forall. intros H He.
  apply andb_true_iff. auto.
Qed.

(** ** Statements that quote a key *)

(** C4 (as amended).  In a table with distinct keys, a statement that quotes
    the key of an entry, in single, double or mixed quotes, comes out of the
    run as its own keyword, one space and the new path in single quotes, in
    the place of the original, provided no later entry has the new path as
    its key; a statement that quotes no key comes out as it was, quotes and
    white space included.  What stands before and behind the statement is
    rewritten by itself. *)
Theorem statement_is_reemitted mappings m1 old new m2 k ws q1 q2 pre post :
  paths_ok mappings = true ->
  NoDup (map fst mappings) ->
  mappings = m1 ++ (old, new) :: m2 ->
  ~ In new (map fst m2) ->
  ws <> [] -> forallb is_space ws = true ->
  is_quote q1 = true -> is_quote q2 = true ->
  apply_mappings mappings (pre ++ stmt_text k ws q1 (lit old) q2 ++ post)
  = apply_mappings mappings pre ++ kw_text k ++ lit " '" ++ lit new ++ lit "'"
    ++ apply_mappings mappings post
  /\
  forall p, path_like p = true -> is_key mappings p = false ->
    apply_mappings mappings (pre ++ stmt_text k ws q1 p q2 ++ post)
    = apply_mappings mappings pre ++ stmt_text k ws q1 p q2
      ++ apply_mappings mappings post.
Proof.
  intros Hok Hnd -> Hlater Hne Hws Hq1 Hq2. split.
  - destruct (paths_ok_In _ (old, new) Hok) as [Hold _].
    { rewrite in_app_iff. right. now left. }
    rewrite apply_mappings_statement by (repeat split; auto).
    destruct (chase_entry m1 old new m2 Hnd) as [Ec Ek].
    rewrite tok_pass_stmt, Ek, Ec.
    rewrite chase_not_key by now apply is_key_false.
    cbn [tok_text]. rewrite stmt_text_app. reflexivity.
  - intros p Hp Hk.
    rewrite apply_mappings_statement by (repeat split; auto).
    now rewrite tok_pass_stmt, Hk.
Qed.


(** C9.  The two quotes of a match are matched one by one and need not be the
    same character: for every entry of the table, a statement that opens the
    old path with either quote and closes it with either quote, the other one
    included, is matched and is rewritten by the entry to the keyword, a space
    and the new path in single quotes. *)
Theorem mismatched_quotes_are_rewritten e k ws q1 q2 pre post :
  In e import_mappings ->
  ws <> [] -> forallb is_space ws = true ->
  is_quote q1 = true -> is_quote q2 = true ->
  match_at (kw_text k) (lit (fst e)) (stmt_text k ws q1 (lit (fst e)) q2 ++ post)
  = Some post /\
  apply_entry (pre ++ stmt_text k ws q1 (lit (fst e)) q2 ++ post) e
  = apply_entry pre e ++ kw_text k ++ lit " '" ++ lit (snd e) ++ lit "'"
    ++ apply_entry post e.
Proof.
  intros He Hne Hws Hq1 Hq2.
  destruct (paths_ok_In _ e import_mappings_paths_ok He) as [Hold Hnew].
  split; [now apply match_at_text|].
  destruct (canonical_exists pre) as (a & Ha & <-).
  destruct (canonical_exists post) as (b & Hb & <-).
  assert (Hc : canonical (a ++ Stmt k ws q1 (lit (fst e)) q2 :: b)).
  { apply canonical_app; simpl; auto. repeat split; auto. }
  destruct (apply_entry_untok e _ Hold Hnew Hc) as [E _].
  rewrite untok_app in E. cbn [untok flat_map tok_text] in E.
  fold (untok b) in E. rewrite E.
  rewrite map_app, untok_app. cbn [map untok flat_map].
  destruct (apply_entry_untok e _ Hold Hnew Ha) as [-> _].
  destruct (apply_entry_untok e _ Hold Hnew Hb) as [-> _].
  rewrite tok_step_stmt.
  destruct (str_eq_dec (lit (fst e)) (lit (fst e))); [|congruence].
  cbn [tok_text]. rewrite stmt_text_app. reflexivity.
Qed.

(** ** Occurrences *)


Lemma re_search_nil kw old : re_search kw old [] = false.
Proof.
  simpl. destruct (match_at kw old []) eqn:E; [|reflexivity].
  apply match_at_shorter in E. simpl in E. lia.
Qed.

Lemma re_search_head kw old s r :
  match_at kw old s = Some r -> re_search kw old s = true.
Proof. intros H. destruct s; simpl; now rewrite H. Qed.

Lemma re_search_app_r kw old x r : forall u,
  match_at kw old x = Some r -> re_search kw old (u ++ x) = true.
Proof.
  induction u as [|c u IH]; intros H.
  - now apply (re_search_head kw old x r).
  - simpl. destruct (match_at kw old (c :: u ++ x)); auto.
Qed.

Lemma re_search_closed k old t : forall a,
  closed a t -> re_search (kw_text k) old (a ++ t) = re_search (kw_text k) old t.
Proof.
  induction a as [|c a IH]; intros Hc; [reflexivity|].
  destruct Hc as [Ho Hc]. cbn [app re_search].
  destruct (match_at (kw_text k) old (c :: a ++ t)) eqn:E; [|auto].
  apply match_at_opens in E. congruence.
Qed.

Lemma canonical_In ts k ws q1 p q2 :
  canonical ts -> In (Stmt k ws q1 p q2) ts -> well_formed ws q1 p q2.
Proof.
  induction ts as [|t ts IH]; intros Hc Hi; [destruct Hi|].
  destruct Hi as [E|Hi].
  - subst t. simpl in Hc. tauto.
  - destruct t; simpl in Hc; apply IH; tauto.
Qed.

(** A statement of a cutting is an occurrence of the path it quotes. *)
Lemma re_search_token ts k ws q1 p q2 :
  canonical ts -> In (Stmt k ws q1 p q2) ts ->
  re_search (kw_text k) p (untok ts) = true.
Proof.
  intros Hc Hi. pose proof (canonical_In _ _ _ _ _ _ Hc Hi) as Hwf.
  apply in_split in Hi. destruct Hi as (a & b & ->).
  rewrite untok_app. apply (re_search_app_r _ _ _ (untok b)).
  destruct Hwf as (Hne & Hws & Hq1 & _ & Hq2).
  cbn [untok flat_map tok_text]. now apply match_at_text.
Qed.

(** A cutting without a statement for the pattern has no occurrence. *)
Lemma re_search_untok k old : forall ts,
  path_like old = true -> canonical ts ->
  (forall k' ws q1 p q2, In (Stmt k' ws q1 p q2) ts -> k <> k' \/ p <> old) ->
  re_search (kw_text k) old (untok ts) = false.
Proof.
  induction ts as [|t ts IH]; intros Hold Hc Hno; [apply re_search_nil|].
  assert (Hts : re_search (kw_text k) old (untok ts) = false).
  { destruct t; simpl in Hc; apply IH; try tauto;
      intros; eapply Hno; right; eauto. }
  destruct t as [c|k' ws q1 p q2]; simpl in Hc; destruct Hc as [H1 H2].
  - cbn [untok flat_map tok_text app re_search]. fold (untok ts).
    now rewrite (stmt_at_none_match k old _ Hold H1).
  - cbn [untok flat_map tok_text]. fold (untok ts).
    pose proof (match_at_other k old k' ws q1 p q2 (untok ts) Hold H1
                  (Hno _ _ _ _ _ (or_introl eq_refl))) as Hm.
    destruct (stmt_text_interior k' ws q1 p q2 (untok ts) H1)
      as (c & a & Ea & Hcl).
    rewrite Ea in *. cbn [app re_search] in *. rewrite Hm.
    now rewrite re_search_closed.
Qed.

Lemma import_mappings_proper :
  forallb (fun e => if str_eq_dec (lit (fst e)) (lit (snd e)) then false else true)
          import_mappings = true.
Proof. vm_compute. reflexivity. Qed.


(** ** One run after another *)

Lemma rewrite_untok ts :
  canonical ts ->
  rewrite (untok ts) = untok (map (tok_pass import_mappings) ts) /\
  canonical (map (tok_pass import_mappings) ts).
Proof. apply apply_mappings_untok, import_mappings_paths_ok. Qed.

Lemma tok_pass_thrice t :
  tok_pass import_mappings (tok_pass import_mappings (tok_pass import_mappings t))
  = tok_pass import_mappings (tok_pass import_mappings t).
Proof.
  destruct t as [c|k ws q1 p q2]; [now rewrite !tok_pass_chr|].
  rewrite (tok_pass_stmt k ws q1 q2 import_mappings p).
  destruct (is_key import_mappings p) eqn:Ek.
  - apply is_key_In in Ek. destruct Ek as (e & He & ->).
    rewrite (chase_import_mappings e He), !tok_pass_normal. f_equal.
    apply chase_not_key.
    pose proof import_mappings_settle as H. rewrite forallb_forall in H.
    specialize (H e He). now apply negb_true_iff in H.
  - repeat (rewrite tok_pass_stmt, Ek). reflexivity.
Qed.

Lemma tok_pass_twice ts t :
  canonical ts -> untouched retargeted (untok ts) -> In t ts ->
  tok_pass import_mappings (tok_pass import_mappings t)
  = tok_pass import_mappings t.
Proof.
  intros Hc Hu Hi.
  destruct t as [c|k ws q1 p q2]; [now rewrite !tok_pass_chr|].
  rewrite (tok_pass_stmt k ws q1 q2 import_mappings p).
  destruct (is_key import_mappings p) eqn:Ek.
  - apply is_key_In in Ek. destruct Ek as (e & He & ->).
    rewrite (chase_import_mappings e He), !tok_pass_normal. f_equal.
    apply chase_not_key.
    destruct (is_key import_mappings (lit (snd e))) eqn:Ev; [|reflexivity].
    exfalso.
    assert (Hr : In e retargeted).
    { unfold retargeted. apply filter_In. auto. }
    destruct (Hu e Hr) as [H1 H2].
    pose proof (re_search_token ts _ _ _ _ _ Hc Hi) as Hs.
    destruct k; simpl in Hs; congruence.
  - repeat (rewrite tok_pass_stmt, Ek). reflexivity.
Qed.

(** C1 (as amended).  One run need not be the last to change a text: a
    statement whose new path is itself a key is rewritten once more by the
    next run.  For every text the third run changes nothing; and the second
    run changes nothing when the text has no occurrence of an entry whose new
    path is a key of the table. *)
Theorem rewrite_settles s :
  rewrite (rewrite (rewrite s)) = rewrite (rewrite s) /\
  (untouched retargeted s -> rewrite (rewrite s) = rewrite s).
Proof.
  destruct (canonical_exists s) as (ts & Hc & <-).
  destruct (rewrite_untok ts Hc) as [E1 Hc1]. rewrite E1.
  destruct (rewrite_untok _ Hc1) as [E2 Hc2]. rewrite E2.
  destruct (rewrite_untok _ Hc2) as [E3 _]. rewrite E3.
  rewrite !map_map. split.
  - f_equal. apply map_ext. intros t. apply tok_pass_thrice.
  - intros Hu. f_equal. apply map_ext_in. intros t Ht.
    now apply (tok_pass_twice ts).
Qed.

(** ** The examples of the specification *)

(** C7.  The double-quoted import of ../models/note.dart and the import of
    ../widgets/pika_button.dart after one run; the second is not taken on to
    ../../../core/widgets/pika_button.dart by the entry declared before. *)
Theorem rewrite_examples :
  rewrite (lit "import " ++ dq :: lit "../models/note.dart" ++ dq :: lit ";")
  = lit "import '../../core/models/note.dart';" /\
  rewrite (lit "import '../widgets/pika_button.dart';")
  = lit "import '../../core/widgets/pika_button.dart';".
Proof. split; vm_compute; reflexivity. Qed.

(** C1, the counterexample: the second run changes the text again. *)
Lemma second_run_changes_again :
  rewrite (rewrite (lit "import '../widgets/pika_button.dart';"))
  <> rewrite (lit "import '../widgets/pika_button.dart';").
Proof. vm_compute. discriminate. Qed.

(** C2.  Of the two values declared for the key
    ../../core/services/media/image_service.dart the dict keeps the second,
    at the place of the first: the run takes the import to the path with
    three levels.  Applying every declared item in turn would take it to
    ../media/image_service.dart and back, and leave the text as it was. *)
Theorem duplicate_key_keeps_last_value :
  let text := lit "import '../../core/services/media/image_service.dart';" in
  In ("../../core/services/media/image_service.dart",
      "../media/image_service.dart")%string import_mappings_items /\
  ~ In ("../../core/services/media/image_service.dart",
        "../media/image_service.dart")%string import_mappings /\
  rewrite text = lit "import '../../../core/services/media/image_service.dart';" /\
  rewrite_declared text = text.
Proof.
  cbv zeta. split; [|split; [|split]].
  - vm_compute. tauto.
  - intros H. 
    assert (E : existsb (fun e => String.eqb (fst e) "../../core/services/media/image_service.dart"
                                  && String.eqb (snd e) "../media/image_service.dart")
                        import_mappings = false) by (vm_compute; reflexivity).
    apply Bool.not_true_iff_false in E. apply E. apply existsb_exists.
    eexists. split; [exact H|]. reflexivity.
  - vm_compute. reflexivity.
  - vm_compute. reflexivity.
Qed.

(** C4, the counterexample: an export statement is re-emitted as an export
    statement; the text after the run holds no import of the new path. *)
Lemma export_is_not_reemitted_as_import :
  In ("../models/note.dart", "../../core/models/note.dart")%string import_mappings /\
  rewrite (lit "export '../models/note.dart';")
  = lit "export '../../core/models/note.dart';" /\
  contains (rewrite (lit "export '../models/note.dart';"))
           (lit "import '../../core/models/note.dart'") = false.
Proof. split; [|split]; vm_compute; tauto. Qed.

(** ** Instances *)

Lemma not_in_dec (k : string) keys :
  existsb (String.eqb k) keys = false -> ~ In k keys.
Proof.
  intros H Hi. apply Bool.not_true_iff_false in H. apply H.
  apply existsb_exists. exists k. split; [assumption|apply String.eqb_refl].
Qed.

Lemma distinct_NoDup keys : distinct keys = true -> NoDup keys.
Proof.
  induction keys as [|k keys IH]; simpl; intros H; constructor.
  - apply andb_true_iff in H. destruct H as [H _].
    apply negb_true_iff in H. now apply not_in_dec.
  - apply andb_true_iff in H. tauto.
Qed.

(** The keys of the dict of the script are distinct. *)
Lemma import_mappings_keys_distinct : NoDup (map fst import_mappings).
Proof. apply distinct_NoDup. vm_compute. reflexivity. Qed.

(** No value of the table holds a backslash: every replacement template
    stands for itself. *)
Lemma import_mappings_templates_literal :
  forallb (fun e => forallb (fun c => negb (c =? 92)) (lit (snd e)))
          import_mappings = true.
Proof. vm_compute. reflexivity. Qed.


Lemma unmatched_file_is_left_alone_witness :
  rewrite (lit "import 'package:flutter/material.dart';")
  = lit "import 'package:flutter/material.dart';" /\
  process_file disk disk_read disk_write
    (start disk disk_glob sample_disk) "lib/c.dart"
  = start disk disk_glob sample_disk.
Proof.
  apply (unmatched_file_is_left_alone disk disk_read disk_write
           (start disk disk_glob sample_disk) "lib/c.dart"
           (lit "import 'package:flutter/material.dart';")).
  - vm_compute. reflexivity.
  - apply untouched_dec. vm_compute. reflexivity.
Defined.


(** The run over the sample disk: one file rewritten, one unreadable, one
    left alone, one that cannot be written. *)
Example sample_run :
  printed (fix_imports disk disk_glob disk_read disk_write sample_disk)
  = [ Start 4; Modified "lib/a.dart";
      Failed "lib/b.dart" "Permission denied";
      Failed "lib/d.dart" "Permission denied"; Summary 1 4 ] /\
  writes (world (fix_imports disk disk_glob disk_read disk_write sample_disk))
  = 1%nat.
Proof. split; vm_compute; reflexivity. Qed.

Lemma statement_is_reemitted_witness :
  apply_mappings import_mappings
    (lit "// models" ++ 10 :: lit "export" ++ [9; space] ++ dq ::
     lit "../models/note.dart" ++ sq :: lit ";")
  = lit "// models" ++ 10 :: lit "export '../../core/models/note.dart';".
Proof.
  pose proof (statement_is_reemitted import_mappings
                (firstn 2 import_mappings)
                "../models/note.dart" "../../core/models/note.dart"
                (skipn 3 import_mappings)
                Export [9; space] dq sq (lit "// models" ++ [10]) (lit ";")) as H.
  destruct H as [H _].
  - exact import_mappings_paths_ok.
  - exact import_mappings_keys_distinct.
  - vm_compute. reflexivity.
  - apply not_in_dec. vm_compute. reflexivity.
  - discriminate.
  - reflexivity.
  - reflexivity.
  - reflexivity.
  - vm_compute in H. vm_compute. exact H.
Defined.



(** In the dict of the script no entry has for its new path the key of an
    entry behind it: within one run of the script no chain occurs. *)
Lemma import_mappings_no_chain m1 e m2 :
  import_mappings = m1 ++ e :: m2 -> ~ In (snd e) (map fst m2).
Proof.
  intros E.
  assert (H : forallb
                (fun n => negb (existsb
                                  (String.eqb (snd (nth n import_mappings ("", ""))))
                                  (map fst (skipn (S n) import_mappings))))
                (seq 0 (length import_mappings)) = true)
    by (vm_compute; reflexivity).
  rewrite forallb_forall in H. specialize (H (length m1)).
  rewrite E in H at 2 3.
  rewrite nth_middle in H.
  replace (skipn (S (length m1)) (m1 ++ e :: m2)) with m2 in H.
  - apply not_in_dec. apply negb_true_iff. apply H.
    apply in_seq. rewrite E, length_app. simpl. lia.
  - replace (m1 ++ e :: m2) with ((m1 ++ [e]) ++ m2)
      by (rewrite <- app_assoc; reflexivity).
    rewrite skipn_app.
    replace (S (length m1)) with (length (m1 ++ [e]))
      by (rewrite length_app; simpl; lia).
    rewrite skipn_all, Nat.sub_diag. reflexivity.
Qed.

Lemma mismatched_quotes_are_rewritten_witness :
  apply_entry (lit "import " ++ dq :: lit "../models/note.dart';")
              ("../models/note.dart", "../../core/models/note.dart")
  = lit "import '../../core/models/note.dart';".
Proof.
  pose proof (mismatched_quotes_are_rewritten
                ("../models/note.dart", "../../core/models/note.dart")
                Import [space] dq sq [] (lit ";")) as H.
  destruct H as [_ H].
  - do 2 right. left. reflexivity.
  - discriminate.
  - reflexivity.
  - reflexivity.
  - reflexivity.
  - vm_compute in H. vm_compute. exact H.
Defined.


(** Two occurrences, one at the tail of an identifier and one in a comment:
    both are replaced. *)
Example both_occurrences_replaced :
  rewrite (lit "reimport '../models/note.dart'; /* export" ++ 10 :: 9 :: dq ::
           lit "../models/note.dart" ++ dq :: lit " */")
  = lit "reimport '../../core/models/note.dart'; /* export '../../core/models/note.dart' */".
Proof. vm_compute. reflexivity. Qed.

Lemma rewrite_settles_witness :
  rewrite (rewrite (lit "import '../models/note.dart';"))
  = rewrite (lit "import '../models/note.dart';").
Proof.
  apply (proj2 (rewrite_settles (lit "import '../models/note.dart';"))).
  apply untouched_dec. vm_compute. reflexivity.
Defined.

(** * Further properties *)

(** ** The dict display *)

Lemma dict_set_keys_In d k v k' :
  In k' (map fst (dict_set d k v)) <-> k' = k \/ In k' (map fst d).
Proof.
  induction d as [|[k0 v0] d IH]; simpl.
  - intuition.
  - destruct (String.eqb_spec k0 k); simpl.
    + subst. intuition.
    + rewrite IH. intuition.
Qed.

Lemma dict_set_NoDup d k v :
  NoDup (map fst d) -> NoDup (map fst (dict_set d k v)).
Proof.
  induction d as [|[k0 v0] d IH]; simpl; intros H.
  - constructor; [intros []|constructor].
  - inversion H as [|? ? Hn Hd]; subst.
    destruct (String.eqb_spec k0 k); simpl.
    + now constructor.
    + constructor; [|auto]. rewrite dict_set_keys_In. intuition.
Qed.

Lemma dict_set_In d k v k' v' :
  NoDup (map fst d) ->
  In (k', v') (dict_set d k v) <->
  (k' = k /\ v' = v) \/ (k' <> k /\ In (k', v') d).
Proof.
  induction d as [|[k0 v0] d IH]; simpl; intros H.
  - split.
    + intros [E|[]]. inversion E. auto.
    + intros [[-> ->]|[_ []]]. auto.
  - inversion H as [|? ? Hn Hd]; subst.
    destruct (String.eqb_spec k0 k) as [->|Hne]; simpl.
    + split.
      * intros [E|Hi].
        -- inversion E. auto.
        -- right. split; [|auto]. intros ->. apply Hn.
           now apply (in_map fst) in Hi.
      * intros [[-> ->]|[Hk [E|Hi]]]; auto.
        inversion E. congruence.
    + rewrite (IH Hd). split.
      * intros [E|[[-> ->]|[Hk Hi]]]; auto.
        inversion E; subst. auto.
      * intros [[-> ->]|[Hk [E|Hi]]]; auto.
Qed.

Lemma dict_fold_NoDup items : forall d,
  NoDup (map fst d) ->
  NoDup (map fst (fold_left (fun d kv => dict_set d (fst kv) (snd kv)) items d)).
Proof.
  induction items as [|[k v] items IH]; simpl; intros d H; [assumption|].
  apply IH. now apply dict_set_NoDup.
Qed.

(** X1.  Whatever items a dict display declares, the keys of the dict are
    distinct. *)
Theorem dict_display_keys_distinct items :
  NoDup (map fst (dict_display items)).
Proof. apply dict_fold_NoDup. constructor. Qed.

Lemma dict_fold_In items : forall d k v,
  NoDup (map fst d) ->
  In (k, v) (fold_left (fun d kv => dict_set d (fst kv) (snd kv)) items d) <->
  (exists a b, items = a ++ (k, v) :: b /\ ~ In k (map fst b)) \/
  (In (k, v) d /\ ~ In k (map fst items)).
Proof.
  induction items as [|[k0 v0] items IH]; intros d k v Hd.
  - simpl. split; [auto|]. intros [(a & b & E & _)|[H _]]; [|assumption].
    destruct a; discriminate.
  - cbn [fold_left fst snd]. rewrite (IH _ k v (dict_set_NoDup d k0 v0 Hd)).
    rewrite (dict_set_In d k0 v0 k v Hd). split.
    + intros [(a & b & -> & Hb)|[[[-> ->]|[Hk Hi]] Hn]].
      * left. exists ((k0, v0) :: a), b. auto.
      * left. exists [], items. auto.
      * right. split; [assumption|]. simpl. intuition.
    + intros [(a & b & E & Hb)|[Hi Hn]].
      * destruct a as [|x a]; simpl in E; inversion E; subst.
        -- right. auto.
        -- left. exists a, b. auto.
      * simpl in Hn. right. split; [|intuition]. right. intuition.
Qed.

(** X2.  Of the items declared for one key the last one takes effect: the
    dict holds the pair (k, v) exactly when (k, v) is declared and no item
    declared behind it has the key k. *)
Theorem dict_display_last_value items k v :
  In (k, v) (dict_display items) <->
  exists a b, items = a ++ (k, v) :: b /\ ~ In k (map fst b).
Proof.
  unfold dict_display. rewrite dict_fold_In by constructor.
  split; [|auto]. intros [H|[[] _]]. exact H.
Qed.

Lemma dict_set_fresh d k v :
  ~ In k (map fst d) -> dict_set d k v = d ++ [(k, v)].
Proof.
  induction d as [|[k0 v0] d IH]; simpl; intros H; [reflexivity|].
  destruct (String.eqb_spec k0 k); [tauto|]. f_equal. apply IH. tauto.
Qed.

Lemma dict_fold_fresh items : forall d,
  NoDup (map fst (d ++ items)) ->
  fold_left (fun d kv => dict_set d (fst kv) (snd kv)) items d = d ++ items.
Proof.
  induction items as [|[k v] items IH]; simpl; intros d H.
  - now rewrite app_nil_r.
  - rewrite dict_set_fresh.
    + rewrite IH; rewrite <- app_assoc; [reflexivity|exact H].
    + rewrite map_app in H. simpl in H. apply NoDup_remove_2 in H.
      rewrite in_app_iff in H. tauto.
Qed.

(** X3.  A display whose declared keys are distinct gives the dict of its
    items, in the order of the declaration. *)
Theorem dict_display_without_duplicates items :
  NoDup (map fst items) -> dict_display items = items.
Proof. intros H. now apply (dict_fold_fresh items []). Qed.

Lemma dict_display_without_duplicates_witness :
  dict_display [("../models/note.dart", "../../core/models/note.dart");
                ("../models/page.dart", "../../core/models/page.dart")]
  = [("../models/note.dart", "../../core/models/note.dart");
     ("../models/page.dart", "../../core/models/page.dart")].
Proof.
  apply dict_display_without_duplicates.
  apply distinct_NoDup. reflexivity.
Defined.

(** ** The output of a run *)

Section RunOutput.

Variable World : Type.
Variable glob_dart : World -> list path.
Variable read_text : World -> path -> str + string.
Variable write_text : World -> path -> str -> World * option string.





(** X5.  A modification line is earned: when processing a file prints that
    it was modified, the file was read, the run changes its text, the changed
    text was written without an error, and the count went up by one. *)
Theorem modified_line_is_earned st f :
  printed (process_file World read_text write_text st f)
  = printed st ++ [Modified f] ->
  exists content,
    read_text (world st) f = inl content /\
    rewrite content <> content /\
    write_text (world st) f (rewrite content)
    = (world (process_file World read_text write_text st f), None) /\
    modified_files (process_file World read_text write_text st f)
    = S (modified_files st).
Proof.
  unfold process_file.
  destruct (read_text (world st) f) as [content|e] eqn:Er; cbn [print printed].
  - destruct (str_eq_dec (rewrite content) content) as [E|Hne].
    + intros H. rewrite <- (app_nil_r (printed st)) in H at 1.
      apply app_inv_head in H. discriminate.
    + destruct (write_text (world st) f (rewrite content)) as [w [e|]] eqn:Ew;
        cbn [print printed world modified_files]; intros H.
      * apply app_inv_head in H. discriminate.
      * exists content. repeat split; auto.
  - intros H. apply app_inv_head in H. discriminate.
Qed.

End RunOutput.

Lemma modified_line_is_earned_witness :
  exists content,
    disk_read sample_disk "lib/a.dart" = inl content /\
    rewrite content <> content /\
    disk_write sample_disk "lib/a.dart" (rewrite content)
    = (world (process_file disk disk_read disk_write
                (start disk disk_glob sample_disk) "lib/a.dart"), None) /\
    modified_files (process_file disk disk_read disk_write
                      (start disk disk_glob sample_disk) "lib/a.dart")
    = 1%nat.
Proof.
  apply (modified_line_is_earned disk disk_read disk_write
           (start disk disk_glob sample_disk) "lib/a.dart").
  vm_compute. reflexivity.
Defined.

(** ** Texts the patterns cannot match *)





(** ** What a run changes *)

Lemma tok_text_nonempty t : tok_text t <> [].
Proof.
  destruct t as [c|k ws q1 p q2]; [discriminate|].
  simpl. unfold stmt_text. destruct k; discriminate.
Qed.

(** A text has one canonical cutting. *)
Lemma canonical_unique : forall ts ts',
  canonical ts -> canonical ts' -> untok ts = untok ts' -> ts = ts'.
Proof.
  induction ts as [|t ts IH]; intros ts' Hc Hc' E.
  - destruct ts' as [|t' ts']; [reflexivity|].
    simpl in E. symmetry in E. apply app_eq_nil in E.
    destruct E as [E _]. now apply tok_text_nonempty in E.
  - destruct ts' as [|t' ts'].
    + simpl in E. apply app_eq_nil in E.
      destruct E as [E _]. now apply tok_text_nonempty in E.
    + cbn [untok flat_map] in E. fold (untok ts) (untok ts') in E.
      destruct t as [c|k ws q1 p q2], t' as [c'|k' ws' q1' p' q2'];
        cbn [canonical] in Hc, Hc'; destruct Hc as [H1 H2], Hc' as [H1' H2'];
        cbn [tok_text] in E.
      * inversion E. f_equal; auto.
      * exfalso. cbn [app] in E. rewrite E in H1.
        rewrite stmt_at_text in H1 by assumption. discriminate.
      * exfalso. cbn [app] in E. rewrite <- E in H1'.
        rewrite stmt_at_text in H1' by assumption. discriminate.
      * apply stmt_text_unique in E; auto. destruct E as [E1 E2].
        rewrite E1. f_equal. auto.
Qed.

Lemma map_fixed {A} (f : A -> A) : forall l, map f l = l ->
  forall x, In x l -> f x = x.
Proof.
  induction l as [|a l IH]; intros E x Hx; [destruct Hx|].
  simpl in E. inversion E as [[Ea El]]. destruct Hx as [<-|Hx].
  - now rewrite Ea.
  - now apply IH.
Qed.

Lemma is_key_entry m e : In e m -> is_key m (lit (fst e)) = true.
Proof.
  intros He. unfold is_key. apply existsb_exists. exists e.
  split; [assumption|]. now destruct (str_eq_dec (lit (fst e)) (lit (fst e))).
Qed.

Lemma import_mappings_entry_proper e :
  In e import_mappings -> lit (snd e) <> lit (fst e).
Proof.
  intros He. pose proof import_mappings_proper as H.
  rewrite forallb_forall in H. specialize (H e He).
  destruct (str_eq_dec (lit (fst e)) (lit (snd e))); [discriminate|congruence].
Qed.

(** X7.  The run changes a text exactly when a pattern of the table occurs in
    it: a text is returned as it was if and only if no entry has an
    occurrence, as import or as export.  So a readable file is written (or
    its write fails) exactly when it holds an occurrence. *)
Theorem rewrite_fixes_iff_untouched s :
  rewrite s = s <-> untouched import_mappings s.
Proof.
  split; [|apply apply_mappings_untouched].
  destruct (canonical_exists s) as (ts & Hc & <-).
  destruct (rewrite_untok ts Hc) as [E Hc']. rewrite E. intros Hfix.
  apply canonical_unique in Hfix; auto.
  assert (Hno : forall k e, In e import_mappings ->
            re_search (kw_text k) (lit (fst e)) (untok ts) = false).
  { intros k e He.
    destruct (paths_ok_In _ e import_mappings_paths_ok He) as [Hold _].
    apply re_search_untok; auto.
    intros k' ws q1 p q2 Hi. right. intros ->.
    pose proof (map_fixed _ _ Hfix _ Hi) as Ht.
    rewrite tok_pass_stmt, (is_key_entry _ e He) in Ht.
    rewrite (chase_import_mappings e He) in Ht.
    inversion Ht as [[Hws Hq1 Hp Hq2]].
    now apply (import_mappings_entry_proper e He). }
  intros e He. split.
  - apply (Hno Import e He).
  - apply (Hno Export e He).
Qed.

(** X8.  After a run no occurrence is left of any key that is not the new
    path of an entry: for such a key neither pattern is found in the text
    the run returns, whatever the text was. *)
Theorem no_occurrence_left_after_run s e k :
  In e import_mappings ->
  ~ In (fst e) (map snd import_mappings) ->
  re_search (kw_text k) (lit (fst e)) (rewrite s) = false.
Proof.
  intros He Hnt.
  destruct (canonical_exists s) as (ts & Hc & <-).
  destruct (rewrite_untok ts Hc) as [E Hc']. rewrite E.
  destruct (paths_ok_In _ e import_mappings_paths_ok He) as [Hold _].
  apply re_search_untok; auto.
  intros k' ws q1 p q2 Hi. right. intros ->.
  apply in_map_iff in Hi. destruct Hi as (t & Et & _).
  destruct t as [c|k0 ws0 q10 p0 q20].
  - rewrite tok_pass_chr in Et. discriminate.
  - rewrite tok_pass_stmt in Et.
    destruct (is_key import_mappings p0) eqn:Ek.
    + apply is_key_In in Ek. destruct Ek as (e' & He' & ->).
      rewrite (chase_import_mappings e' He') in Et.
      inversion Et as [[Hk Hws Hq1 Hp Hq2]].
      apply lit_inj in Hp. apply Hnt. rewrite <- Hp. now apply in_map.
    + inversion Et; subst.
      rewrite (is_key_entry _ e He) in Ek. discriminate.
Qed.

Lemma no_occurrence_left_after_run_witness :
  re_search kw_import (lit "../models/note.dart")
    (rewrite (lit "import " ++ dq :: lit "../models/note.dart" ++ dq :: lit ";"))
  = false.
Proof.
  apply (no_occurrence_left_after_run
           (lit "import " ++ dq :: lit "../models/note.dart" ++ dq :: lit ";")
           ("../models/note.dart", "../../core/models/note.dart") Import).
  - do 2 right. left. reflexivity.
  - apply not_in_dec. vm_compute. reflexivity.
Defined.

(** ** How the entries compose *)







(** ** Characters no match can hold *)









(** ** The order of the keys *)

Lemma dict_set_keys_prefix d k v :
  exists l, map fst (dict_set d k v) = map fst d ++ l.
Proof.
  induction d as [|[k0 v0] d IH]; simpl.
  - now exists [k].
  - destruct (String.eqb_spec k0 k); simpl.
    + exists []. now rewrite app_nil_r.
    + destruct IH as (l & ->). now exists l.
Qed.

Lemma dict_fold_keys_prefix items : forall d,
  exists l,
    map fst (fold_left (fun d kv => dict_set d (fst kv) (snd kv)) items d)
    = map fst d ++ l.
Proof.
  induction items as [|[k v] items IH]; simpl; intros d.
  - exists []. now rewrite app_nil_r.
  - destruct (IH (dict_set d k v)) as (l & ->).
    destruct (dict_set_keys_prefix d k v) as (l' & ->).
    exists (l' ++ l). now rewrite app_assoc.
Qed.

(** X12.  Items declared later never move a key: the keys of the dict of
    [a ++ b] begin with the keys of the dict of [a], in the same order.  A
    key declared again keeps the place of its first declaration. *)
Theorem dict_display_keeps_key_order a b :
  exists l,
    map fst (dict_display (a ++ b)) = map fst (dict_display a) ++ l.
Proof.
  unfold dict_display. rewrite fold_left_app. apply dict_fold_keys_prefix.
Qed.
